(** * Circuit-breaker flow-node: a shallow embedding of [actions.js]

    The plugin keeps one mutable record per circuit-breaker identifier in a
    [NodeCache] created with [useClones: false], so the object returned by
    [get] is the stored object itself and every assignment made by a handler
    is an assignment to the stored state.  The embedding makes this explicit:
    the cache is a finite map from identifiers to records, and an action
    writes the mutated record back under its identifier.

    Modelling conventions
    - Numbers are integers ([Z]); the source uses IEEE doubles, which are
      exact on integers up to [2^53] in absolute value (counters, millisecond
      stamps, response codes).  Where a statement depends on the value of a
      numeral of the specification or on the printed digits of a code, it
      carries that bound ([exact_number]).
    - Every [new Date().getTime()] of one invocation yields the same value
      [now], passed as an argument; [Math.random] ids are passed as [errorId].
    - [logger.debug]/[logger.info] output is not recorded; only the fact that
      a call on an [undefined] logger throws is.
    - The cache's time-to-live eviction is outside the model. *)

From Stdlib Require Import ZArith Ascii String List Lia Bool.
From stdpp Require Import base option list gmap fin_maps strings pretty.

Local Open Scope Z_scope.

(** ** Data model *)

Inductive Status := closed | open | halfopen.

(** The flow-node outputs.  [circuitBreaker.output] only ever holds
    ['next'] or ['open']; ['error'] is the output the runtime selects when
    the action throws. *)
Inductive Output := out_next | out_open | out_error.

Inductive Error :=
| JsError (message : string)          (* [new Error(message)] *)
| TypeError (property : string).      (* property read on [undefined] *)

#[global] Instance Status_eq_dec : EqDecision Status.
Proof. solve_decision. Defined.
#[global] Instance Output_eq_dec : EqDecision Output.
Proof. solve_decision. Defined.
#[global] Instance Error_eq_dec : EqDecision Error.
Proof. solve_decision. Defined.

(** One entry of [circuitBreaker.errors]. *)
Record ErrorEvent := mkErrorEvent {
  error : string;
  timestamp : Z;
  cause : string
}.

(** The [params] object of [configCheckCircuitBreaker] as the flow passes it:
    a field is [None] when it is [undefined] or [null]. *)
Record CheckParams := mkCheckParams {
  given_circuitBreakerId : option string;
  given_maxErrorCount : option Z;
  given_timeRange : option Z;
  given_halfOpenSuccesses : option Z;
  given_recoverPeriod : option Z;
  given_communicationError : option bool;
  given_returnCodes : option string;
  given_maxResponseTime : option Z
}.

(** The [params] object of [updateCircuitBreaker]. *)
Record UpdateParams := mkUpdateParams {
  upd_circuitBreakerId : option string;
  upd_httpResponseCode : option Z
}.

(** [circuitBreaker.params] once [_setDefaultParams] has run: every
    configuration field is defined. *)
Record Params := mkParams {
  circuitBreakerId : string;
  maxErrorCount : Z;
  timeRange : Z;
  halfOpenSuccesses : Z;
  recoverPeriod : Z;
  communicationError : bool;
  returnCodes : string;
  maxResponseTime : Z
}.

(** The stored record.  [errorCodeMap] is a JS object keyed by the response
    code; [openedTimestamp] is [undefined] until the breaker first opens. *)
Record CircuitBreaker := mkCircuitBreaker {
  status : Status;
  output : Output;
  errors : list ErrorEvent;
  successCount : Z;
  errorCodeMap : gmap Z bool;
  params : Params;
  openedTimestamp : option Z
}.

Definition set_status (s : Status) (cb : CircuitBreaker) : CircuitBreaker :=
  mkCircuitBreaker s (output cb) (errors cb) (successCount cb)
                   (errorCodeMap cb) (params cb) (openedTimestamp cb).
Definition set_output (o : Output) (cb : CircuitBreaker) : CircuitBreaker :=
  mkCircuitBreaker (status cb) o (errors cb) (successCount cb)
                   (errorCodeMap cb) (params cb) (openedTimestamp cb).
Definition set_errors (l : list ErrorEvent) (cb : CircuitBreaker) : CircuitBreaker :=
  mkCircuitBreaker (status cb) (output cb) l (successCount cb)
                   (errorCodeMap cb) (params cb) (openedTimestamp cb).
Definition set_successCount (n : Z) (cb : CircuitBreaker) : CircuitBreaker :=
  mkCircuitBreaker (status cb) (output cb) (errors cb) n
                   (errorCodeMap cb) (params cb) (openedTimestamp cb).
Definition set_errorCodeMap (m : gmap Z bool) (cb : CircuitBreaker) : CircuitBreaker :=
  mkCircuitBreaker (status cb) (output cb) (errors cb) (successCount cb)
                   m (params cb) (openedTimestamp cb).
Definition set_openedTimestamp (t : Z) (cb : CircuitBreaker) : CircuitBreaker :=
  mkCircuitBreaker (status cb) (output cb) (errors cb) (successCount cb)
                   (errorCodeMap cb) (params cb) (Some t).

(** How a handler finished: it returned, or it threw.  Either way the
    assignments it made before are kept, since it works on the stored object. *)
Inductive Completion := Return | Throw (e : Error).

(** What the runtime hands back to the flow for one invocation. *)
Inductive Outcome :=
| Returned (route : Output) (value : CircuitBreaker)
| Threw (e : Error).

Definition route_of (o : Outcome) : Output :=
  match o with
  | Returned r _ => r
  | Threw _ => out_error
  end.

(** The logger object of [options]; its output is not modelled. *)
Inductive Logger := ApiBuilderLogger.

(** ** JavaScript primitives used by the actions *)

Module JS.

(** [!x] is false for a non-empty string. *)
Definition truthy_string (x : option string) : option string :=
  match x with
  | Some EmptyString => None
  | Some s => Some s
  | None => None
  end.

(** [!x] is false for a number other than [0]. *)
Definition truthy_number (x : option Z) : option Z :=
  match x with
  | Some 0 => None
  | Some z => Some z
  | None => None
  end.

(** [x % 2] on integers: the sign follows the dividend. *)
Definition remainder (x y : Z) : Z := Z.rem x y.

(** [object.splice(index)]: with no delete count, every element from
    [index] to the end is removed. *)
Definition splice {A} (index : nat) (object : list A) : list A :=
  take index object.

(** [object.forEach(callback)]: the length is read once, then every index
    below it that is still present in the array is visited; the callback
    receives the array itself and may mutate it. *)
Fixpoint forEach_from {A} (callback : A -> nat -> list A -> list A)
         (remaining : nat) (index : nat) (object : list A) : list A :=
  match remaining with
  | O => object
  | S remaining' =>
      let object' :=
        match object !! index with
        | Some x => callback x index object
        | None => object
        end in
      forEach_from callback remaining' (S index) object'
  end.

Definition forEach {A} (callback : A -> nat -> list A -> list A)
           (object : list A) : list A :=
  forEach_from callback (length object) 0%nat object.

End JS.

(** ** The state machine *)

(** [_setDefaultParams]: a configuration field left [undefined] (or [null],
    as the test is [== undefined]) receives its default; a supplied value,
    whatever it is, stays.  [id] is the already validated identifier. *)
Definition _setDefaultParams (id : string) (given : CheckParams) : Params :=
  {| circuitBreakerId := id;
     maxErrorCount := default 10 (given_maxErrorCount given);
     timeRange := default 300 (given_timeRange given);
     halfOpenSuccesses := default 5 (given_halfOpenSuccesses given);
     recoverPeriod := default 30 (given_recoverPeriod given);
     communicationError := default true (given_communicationError given);
     returnCodes := default "[300-999]"%string (given_returnCodes given);
     maxResponseTime := default 100 (given_maxResponseTime given) |}.

(** The object literal of line 34, after [_setDefaultParams]. *)
Definition newCircuitBreaker (id : string) (given : CheckParams) : CircuitBreaker :=
  {| status := closed; output := out_next; errors := []; successCount := 0;
     errorCodeMap := ∅; params := _setDefaultParams id given;
     openedTimestamp := None |}.

Definition _handleClosedStatus (circuitBreaker : CircuitBreaker) : CircuitBreaker :=
  set_output out_next circuitBreaker.

(** [_handleHalfopenStatus].  The closing branch first calls
    [logger.debug]; evaluating that on an [undefined] logger throws before
    any of the three assignments below it. *)
Definition _handleHalfopenStatus (circuitBreaker : CircuitBreaker)
           (logger : option Logger) : CircuitBreaker * Completion :=
  let cb1 :=
    if JS.remainder (successCount circuitBreaker) 2 =? 0
    then set_output out_next circuitBreaker
    else set_output out_open circuitBreaker in
  if successCount cb1 >=? halfOpenSuccesses (params cb1) then
    match logger with
    | None => (cb1, Throw (TypeError "debug"))
    | Some _ =>
        (set_errors [] (set_output out_next (set_status closed cb1)), Return)
    end
  else (cb1, Return).

(** The callback given to [errors.forEach] in [_handleOpenStatus]. *)
Definition expire (now : Z) (circuitBreaker : CircuitBreaker)
           (error : ErrorEvent) (index : nat) (object : list ErrorEvent)
  : list ErrorEvent :=
  let timeRange := now - timeRange (params circuitBreaker) * 1000 in
  if timestamp error <? timeRange then JS.splice index object else object.

(** [openedTimestamp < bound] where the left side may be [undefined]
    (the comparison is then false). *)
Definition opened_before (circuitBreaker : CircuitBreaker) (bound : Z) : bool :=
  match openedTimestamp circuitBreaker with
  | Some t => t <? bound
  | None => false
  end.

(** [_handleOpenStatus].  Note that the half-open handler is called without
    the logger. *)
Definition _handleOpenStatus (now : Z) (circuitBreaker : CircuitBreaker)
           (logger : Logger) : CircuitBreaker * Completion :=
  let cb1 := set_output out_open circuitBreaker in
  let recoverPeriod := recoverPeriod (params cb1) * 1000 in
  if opened_before cb1 (now - recoverPeriod) then
    _handleHalfopenStatus (set_successCount 0 (set_status halfopen cb1)) None
  else
    let cb2 := set_errors (JS.forEach (expire now cb1) (errors cb1)) cb1 in
    if Z.of_nat (length (errors cb2)) <? maxErrorCount (params cb2) then
      (set_output out_next (set_status closed cb2), Return)
    else (cb2, Return).

Definition missing (field : string) : Error :=
  JsError ("Missing required parameter: " +:+ field).

(** [configCheckCircuitBreaker(params, options)] against the cache held in
    [options.pluginContext].  The result is the cache afterwards and what
    the flow receives. *)
Definition configCheckCircuitBreaker (now : Z) (given : CheckParams)
           (circuitBreakerCache : gmap string CircuitBreaker)
  : gmap string CircuitBreaker * Outcome :=
  match JS.truthy_string (given_circuitBreakerId given) with
  | None => (circuitBreakerCache, Threw (missing "circuitBreakerId"))
  | Some id =>
      let circuitBreaker :=
        match circuitBreakerCache !! id with
        | Some cb => cb
        | None => newCircuitBreaker id given
        end in
      let '(cb', completion) :=
        match status circuitBreaker with
        | open => _handleOpenStatus now circuitBreaker ApiBuilderLogger
        | halfopen => _handleHalfopenStatus circuitBreaker (Some ApiBuilderLogger)
        | closed => (_handleClosedStatus circuitBreaker, Return)
        end in
      let cache' := <[id := cb']> circuitBreakerCache in
      match completion with
      | Return => (cache', Returned (output cb') cb')
      | Throw e => (cache', Threw e)
      end
  end.

(** ** String primitives of the classifier

    Strings are byte strings; white space is the ASCII white space (tab, line
    feed, vertical tab, form feed, carriage return, space). *)

Module JSString.

(** [s.split(sep)] for a one-character separator: never empty. *)
Fixpoint split (sep : ascii) (s : string) : list string :=
  match s with
  | EmptyString => [EmptyString]
  | String c s' =>
      if Ascii.eqb c sep then EmptyString :: split sep s'
      else match split sep s' with
           | t :: ts => String c t :: ts
           | [] => [String c EmptyString]
           end
  end.

Fixpoint trimStart (s : string) : string :=
  match s with
  | EmptyString => EmptyString
  | String c s' => if Ascii.is_space c then trimStart s' else s
  end.

Fixpoint trimEnd (s : string) : string :=
  match s with
  | EmptyString => EmptyString
  | String c s' =>
      match trimEnd s' with
      | EmptyString => if Ascii.is_space c then EmptyString else String c EmptyString
      | t => String c t
      end
  end.

(** [s.trim()] *)
Definition trim (s : string) : string := trimEnd (trimStart s).

(** [s.includes(c)] for a one-character needle. *)
Fixpoint includes (c : ascii) (s : string) : bool :=
  match s with
  | EmptyString => false
  | String c' s' => Ascii.eqb c' c || includes c s'
  end.

(** [s.replace(/\[|\]/g, "")] *)
Fixpoint removeBrackets (s : string) : string :=
  match s with
  | EmptyString => EmptyString
  | String c s' =>
      if Ascii.eqb c "["%char || Ascii.eqb c "]"%char then removeBrackets s'
      else String c (removeBrackets s')
  end.

Fixpoint decimal (acc : Z) (s : string) : option Z :=
  match s with
  | EmptyString => Some acc
  | String c s' =>
      match Ascii.is_nat c with
      | Some d => decimal (10 * acc + Z.of_nat d) s'
      | None => None
      end
  end.

(** [ToNumber(s)], the conversion applied when a number is compared with a
    string: white space is trimmed, the empty string is [0], a run of
    decimal digits is its value; [None] is [NaN].  The value is that of the
    implementation for runs of digits worth at most [2^53]; a larger numeral
    is rounded to a double there and is kept exact here, so the statements
    about numerals bound them.  Signed, fractional, exponent, hexadecimal and
    [Infinity] literals are not covered: the model answers [NaN] for them,
    and no statement below relies on that answer. *)
Definition ToNumber (s : string) : option Z := decimal 0 (trim s).

(** [n >= s], [n <= s] and [n == s] for a number [n] and a string [s];
    every comparison with [NaN] is false. *)
Definition ge (n : Z) (s : string) : bool :=
  match ToNumber s with Some m => m <=? n | None => false end.
Definition le (n : Z) (s : string) : bool :=
  match ToNumber s with Some m => n <=? m | None => false end.
Definition eq (n : Z) (s : string) : bool :=
  match ToNumber s with Some m => n =? m | None => false end.

End JSString.

(** ** The error classifier *)

(** The [for] loop of [_isReturnCodeAnError] over the fields of the
    specification: [true] at the first field that matches. *)
Fixpoint matchFields (httpResponseCode : Z) (fields : list string) : bool :=
  match fields with
  | [] => false
  | field :: rest =>
      let element := JSString.trim field in
      if JSString.includes "-" element then
        match JSString.split "-" (JSString.removeBrackets element) with
        | lo :: hi :: _ =>
            if JSString.ge httpResponseCode (JSString.trim lo)
               && JSString.le httpResponseCode (JSString.trim hi)
            then true else matchFields httpResponseCode rest
        | _ => false (* not reached: the element contains a hyphen *)
        end
      else if JSString.eq httpResponseCode element then true
      else matchFields httpResponseCode rest
  end.

(** Lines 152-171: split the specification and run the loop. *)
Definition parseReturnCodes (errorCodes : string) (httpResponseCode : Z) : bool :=
  matchFields httpResponseCode (JSString.split "," errorCodes).

(** Which way a classification was answered; a ghost result, used to state
    that a cached answer does not parse the specification again. *)
Inductive Lookup := NoCode | CacheHit | Parsed.

(** [_isReturnCodeAnError(circuitBreaker, httpResponseCode, logger)].
    Either argument may be [undefined]; reading [errorCodeMap] of an
    undefined breaker throws. *)
Definition _isReturnCodeAnError (circuitBreaker : option CircuitBreaker)
           (httpResponseCode : option Z)
  : Error + (bool * option CircuitBreaker * Lookup) :=
  match httpResponseCode with
  | None => inr (false, circuitBreaker, NoCode)
  | Some code =>
      match circuitBreaker with
      | None => inl (TypeError "errorCodeMap")
      | Some cb =>
          match errorCodeMap cb !! code with
          | Some cached => inr (cached, Some cb, CacheHit)
          | None =>
              let result := parseReturnCodes (returnCodes (params cb)) code in
              inr (result,
                   Some (set_errorCodeMap (<[code := result]> (errorCodeMap cb)) cb),
                   Parsed)
          end
      end
  end.

(** [updateCircuitBreaker(params, options)].  [errorId] stands for the value
    of [_getRandomId()].  The cause is the template literal
    [`responseCode ${httpResponseCode}`]; [pretty] gives its digits for codes
    up to [2^53] in absolute value, and the statements about the cause are
    made for such codes only. *)
Definition updateCircuitBreaker (now : Z) (errorId : string) (given : UpdateParams)
           (circuitBreakerCache : gmap string CircuitBreaker)
  : gmap string CircuitBreaker * Outcome :=
  match JS.truthy_string (upd_circuitBreakerId given) with
  | None => (circuitBreakerCache, Threw (missing "circuitBreakerId"))
  | Some id =>
      match JS.truthy_number (upd_httpResponseCode given) with
      | None => (circuitBreakerCache, Threw (missing "httpResponseCode"))
      | Some code =>
          match _isReturnCodeAnError (circuitBreakerCache !! id) (Some code) with
          | inl e => (circuitBreakerCache, Threw e)
          | inr (_, None, _) =>
              (circuitBreakerCache, Threw (TypeError "errors")) (* not reached *)
          | inr (isError, Some cb, _) =>
              let cb' :=
                if isError then
                  let cb1 :=
                    set_errors (errors cb ++
                      [{| error := errorId; timestamp := now;
                          cause := "responseCode " +:+ pretty code |}]) cb in
                  if bool_decide (status cb1 = halfopen)
                     || (maxErrorCount (params cb1) <=? Z.of_nat (length (errors cb1)))
                  then set_openedTimestamp now (set_status open cb1)
                  else cb1
                else set_successCount (successCount cb + 1) cb in
              (<[id := cb']> circuitBreakerCache, Returned out_next cb')
          end
      end
  end.

(** ** Runs of the plugin *)

(** One invocation of a flow-node method, with the clock reading (and the
    random id) it observes. *)
Inductive Call :=
| CallCheck (now : Z) (given : CheckParams)
| CallUpdate (now : Z) (errorId : string) (given : UpdateParams).

Definition invoke (c : Call) (cache : gmap string CircuitBreaker)
  : gmap string CircuitBreaker * Outcome :=
  match c with
  | CallCheck now given => configCheckCircuitBreaker now given cache
  | CallUpdate now errorId given => updateCircuitBreaker now errorId given cache
  end.

Fixpoint run (calls : list Call) (cache : gmap string CircuitBreaker)
  : gmap string CircuitBreaker :=
  match calls with
  | [] => cache
  | c :: rest => run rest (invoke c cache).1
  end.

(** The caches the plugin can be in: [getPlugin] starts with an empty one. *)
Definition reachable (cache : gmap string CircuitBreaker) : Prop :=
  exists calls, cache = run calls ∅.

(** Every remembered classification is the one the breaker's own
    specification gives. *)
Definition cache_sound (cb : CircuitBreaker) : Prop :=
  forall code cached,
    errorCodeMap cb !! code = Some cached ->
    cached = parseReturnCodes (returnCodes (params cb)) code.

(** ** The vocabulary of the specification *)

(** *** Error window *)

(** The window test of the specification: an entry is inside the window when
    its timestamp is not below [now - timeRange * 1000]. *)
Definition in_window (now : Z) (cb : CircuitBreaker) (e : ErrorEvent) : bool :=
  now - timeRange (params cb) * 1000 <=? timestamp e.

(** The longest prefix of entries inside the window. *)
Fixpoint window_prefix (now : Z) (cb : CircuitBreaker) (l : list ErrorEvent)
  : list ErrorEvent :=
  match l with
  | [] => []
  | e :: rest => if in_window now cb e then e :: window_prefix now cb rest else []
  end.

(** *** Return-code specifications *)

Inductive Token := Exact (n : Z) | Range (lo hi : Z).

Definition token_matches (code : Z) (t : Token) : bool :=
  match t with
  | Exact n => code =? n
  | Range lo hi => (lo <=? code) && (code <=? hi)
  end.

(** A string of white space. *)
Inductive blank : string -> Prop :=
| blank_nil : blank EmptyString
| blank_cons c s : Ascii.is_space c = true -> blank s -> blank (String c s).

(** An unsigned decimal numeral and its value, most significant digit first. *)
Inductive numeral : string -> Z -> Prop :=
| numeral_digit c d :
    Ascii.is_nat c = Some d -> numeral (String c EmptyString) (Z.of_nat d)
| numeral_snoc s n c d :
    numeral s n -> Ascii.is_nat c = Some d ->
    numeral (s +:+ String c EmptyString) (10 * n + Z.of_nat d).

(** A string of white space and digits only. *)
Inductive plain : string -> Prop :=
| plain_nil : plain EmptyString
| plain_cons c s :
    Ascii.is_space c = true \/ is_Some (Ascii.is_nat c) ->
    plain s -> plain (String c s).

Inductive opening : string -> Prop :=
| opening_none : opening EmptyString
| opening_bracket : opening "[".

Inductive closing : string -> Prop :=
| closing_none : closing EmptyString
| closing_bracket : closing "]".

(** The text of one token: an integer, or [lo-hi] with optional brackets;
    white space may surround the token, the bounds and the hyphen. *)
Inductive token_text : Token -> string -> Prop :=
| text_exact w1 s n w2 :
    blank w1 -> numeral s n -> blank w2 ->
    token_text (Exact n) (w1 +:+ s +:+ w2)
| text_range w1 lb w2 slo lo w3 w4 shi hi w5 rb w6 :
    blank w1 -> opening lb -> blank w2 -> numeral slo lo -> blank w3 ->
    blank w4 -> numeral shi hi -> blank w5 -> closing rb -> blank w6 ->
    token_text (Range lo hi)
      (w1 +:+ lb +:+ w2 +:+ slo +:+ w3 +:+ "-" +:+ w4 +:+ shi +:+ w5 +:+ rb +:+ w6).

(** A comma-separated, non-empty list of tokens. *)
Inductive spec_text : list Token -> string -> Prop :=
| spec_last t s : token_text t s -> spec_text [t] s
| spec_more t s ts r :
    token_text t s -> spec_text ts r -> spec_text (t :: ts) (s +:+ "," +:+ r).

(** *** Validation *)

Definition absent_or_empty (x : option string) : Prop :=
  x = None \/ x = Some EmptyString.

(** The invocation failed with one of the two missing-parameter errors. *)
Definition raises_missing (o : Outcome) : Prop :=
  exists field, o = Threw (missing field).

(** The event appended for a response code at time [now]; its cause is the
    text the implementation writes when the code is an [exact_number]. *)
Definition errorEvent (now : Z) (errorId : string) (code : Z) : ErrorEvent :=
  {| error := errorId; timestamp := now;
     cause := "responseCode " +:+ pretty code |}.

(** The opening condition of [updateCircuitBreaker], evaluated after the
    event has been appended to [previous]. *)
Definition must_open (cb : CircuitBreaker) : Prop :=
  status cb = halfopen \/
  maxErrorCount (params cb) <= Z.of_nat (length (errors cb)) + 1.

(** The route the half-open handler first selects from the parity. *)
Definition parity_route (cb : CircuitBreaker) : Output :=
  if Z.even (successCount cb) then out_next else out_open.

(** Two records agree on the configuration, the classification cache and
    the opening stamp. *)
Definition same_frame (cb cb' : CircuitBreaker) : Prop :=
  params cb' = params cb /\
  errorCodeMap cb' = errorCodeMap cb /\
  openedTimestamp cb' = openedTimestamp cb.

(** The breaker as it enters the half-open state. *)
Definition enter_halfopen (cb : CircuitBreaker) : CircuitBreaker :=
  set_successCount 0 (set_status halfopen cb).

(** *** Readings of the specification that the code does not satisfy

    Each is the specification's sentence taken literally; the theorems below
    refute it and prove the nearest statement that holds. *)

(** Recovery with the boundary included: once [recoverPeriod] seconds have
    passed, the last millisecond included, a check behaves as a check of
    the breaker already half-open with [successCount = 0]. *)
Definition recovery_boundary_included : Prop :=
  forall now given id cb t cache,
    JS.truthy_string (given_circuitBreakerId given) = Some id ->
    cache !! id = Some cb ->
    status cb = open ->
    openedTimestamp cb = Some t ->
    recoverPeriod (params cb) * 1000 <= now - t ->
    configCheckCircuitBreaker now given cache =
    configCheckCircuitBreaker now given (<[id := enter_halfopen cb]> cache).

(** Validation raising exactly on absent parameters. *)
Definition missing_iff_absent : Prop :=
  (forall now given cache,
      raises_missing (configCheckCircuitBreaker now given cache).2 <->
      absent_or_empty (given_circuitBreakerId given)) /\
  (forall now errorId given cache,
      raises_missing (updateCircuitBreaker now errorId given cache).2 <->
      absent_or_empty (upd_circuitBreakerId given) \/
      upd_httpResponseCode given = None) /\
  (forall now given cache,
      raises_missing (configCheckCircuitBreaker now given cache).2 ->
      (configCheckCircuitBreaker now given cache).1 = cache) /\
  (forall now errorId given cache,
      raises_missing (updateCircuitBreaker now errorId given cache).2 ->
      (updateCircuitBreaker now errorId given cache).1 = cache).

(** An update touching nothing but the fields it is about. *)
Definition update_changes_nothing_else : Prop :=
  forall now errorId given id code cb cache isError cb1 how,
    JS.truthy_string (upd_circuitBreakerId given) = Some id ->
    upd_httpResponseCode given = Some code ->
    cache !! id = Some cb ->
    _isReturnCodeAnError (Some cb) (Some code) = inr (isError, cb1, how) ->
    exists cb',
      updateCircuitBreaker now errorId given cache
      = (<[id := cb']> cache, Returned out_next cb') /\
      errorCodeMap cb' = errorCodeMap cb /\
      params cb' = params cb /\
      output cb' = output cb /\
      if isError then
        errors cb' = errors cb ++ [errorEvent now errorId code] /\
        successCount cb' = successCount cb /\
        (must_open cb -> status cb' = open /\ openedTimestamp cb' = Some now) /\
        (~ must_open cb ->
         status cb' = status cb /\ openedTimestamp cb' = openedTimestamp cb)
      else
        successCount cb' = successCount cb + 1 /\
        errors cb' = errors cb /\
        status cb' = status cb /\
        openedTimestamp cb' = openedTimestamp cb.

(** An update for an unknown identifier as a silent no-op. *)
Definition unknown_update_is_silent : Prop :=
  forall now errorId given id code cache,
    JS.truthy_string (upd_circuitBreakerId given) = Some id ->
    JS.truthy_number (upd_httpResponseCode given) = Some code ->
    cache !! id = None ->
    (forall e, (updateCircuitBreaker now errorId given cache).2 <> Threw e) /\
    (updateCircuitBreaker now errorId given cache).1 = cache.

(** *** Exact numbers

    A JavaScript number holds an integer exactly, and prints all of its
    decimal digits, as long as the integer is at most [2^53] in absolute
    value.  Within this range the value [JSString.ToNumber] gives to a decimal
    numeral and the decimal text of a code in [errorEvent] are those of the
    implementation; beyond it the implementation rounds the numeral and
    prints the code in a shortened or exponent form.  The statements that
    depend on the value of a numeral or on the text of a code carry the
    bound. *)
Definition exact_number (n : Z) : Prop := Z.abs n <= 2 ^ 53.

Definition exact_token (t : Token) : Prop :=
  match t with
  | Exact n => exact_number n
  | Range lo hi => exact_number lo /\ exact_number hi
  end.

(** A decimal integer literal, with or without a sign. *)
Inductive integer_literal : string -> Z -> Prop :=
| literal_unsigned s n : numeral s n -> integer_literal s n
| literal_negative s n : numeral s n -> integer_literal ("-" +:+ s) (- n).

(** Integer tokens matching on numeric equality whatever their sign, read
    for a specification that consists of one integer token. *)
Definition integer_tokens_match_by_equality : Prop :=
  forall s n code,
    integer_literal s n ->
    exact_number n ->
    parseReturnCodes s code = (code =? n).

(** ** A run that opens a breaker and then checks it

    Ids and stamps of a run used below: a breaker with [maxErrorCount = 3]
    records one failure early and three more five minutes later, which open
    it; a check follows at once. *)

Definition demoParams : CheckParams :=
  {| given_circuitBreakerId := Some "backend"%string;
     given_maxErrorCount := Some 3;
     given_timeRange := None; given_halfOpenSuccesses := None;
     given_recoverPeriod := None; given_communicationError := None;
     given_returnCodes := None; given_maxResponseTime := None |}.

Definition demoFailure : UpdateParams :=
  {| upd_circuitBreakerId := Some "backend"%string;
     upd_httpResponseCode := Some 500 |}.

Definition demoCalls : list Call :=
  [ CallCheck 0 demoParams;
    CallUpdate 1000 "e1" demoFailure;
    CallUpdate 400000 "e2" demoFailure;
    CallUpdate 400001 "e3" demoFailure;
    CallUpdate 400002 "e4" demoFailure ].

Definition demoCache : gmap string CircuitBreaker := run demoCalls ∅.

(** A breaker configured with a range and a single code, after one failure. *)
Definition combinedParams : CheckParams :=
  {| given_circuitBreakerId := Some "combined"%string;
     given_maxErrorCount := None;
     given_timeRange := None; given_halfOpenSuccesses := None;
     given_recoverPeriod := None; given_communicationError := None;
     given_returnCodes := Some "[300-500], 999"%string;
     given_maxResponseTime := None |}.

Definition combinedCalls : list Call :=
  [ CallCheck 0 combinedParams;
    CallUpdate 5 "e1"
      {| upd_circuitBreakerId := Some "combined"%string;
         upd_httpResponseCode := Some 307 |} ].

Definition combinedCache : gmap string CircuitBreaker := run combinedCalls ∅.

(** ** The plugin's test suite as runs

    What a test inspects after a call: the output, and of a returned
    breaker its status, the number of recorded errors and [successCount]. *)

Definition observation (o : Outcome) : Output * option (Status * nat * Z) :=
  match o with
  | Returned r v => (r, Some (status v, length (errors v), successCount v))
  | Threw _ => (out_error, None)
  end.

Fixpoint observe (calls : list Call) (cache : gmap string CircuitBreaker)
  : list (Output * option (Status * nat * Z)) :=
  match calls with
  | [] => []
  | c :: rest =>
      observation (invoke c cache).2 :: observe rest (invoke c cache).1
  end.

Definition onlyId (id : string) : CheckParams :=
  {| given_circuitBreakerId := Some id; given_maxErrorCount := None;
     given_timeRange := None; given_halfOpenSuccesses := None;
     given_recoverPeriod := None; given_communicationError := None;
     given_returnCodes := None; given_maxResponseTime := None |}.

Definition response (id : string) (code : Z) : UpdateParams :=
  {| upd_circuitBreakerId := Some id; upd_httpResponseCode := Some code |}.

(** 'should not consider Errors recorded not within the given timerange';
    the test waits four seconds before the last check. *)
Definition disappearCalls : list Call :=
  [ CallCheck 0
      {| given_circuitBreakerId := Some "errorMustDisappearBreaker"%string;
         given_maxErrorCount := Some 1; given_timeRange := Some 3;
         given_halfOpenSuccesses := None; given_recoverPeriod := None;
         given_communicationError := None;
         given_returnCodes := Some "[300-900]"%string;
         given_maxResponseTime := None |};
    CallUpdate 10 "a" (response "errorMustDisappearBreaker" 500);
    CallCheck 4010 (onlyId "errorMustDisappearBreaker") ].

(** 'validate limetime behavior of the Circuit-Breaker'; the test waits four
    seconds after the breaker has opened. *)
Definition lifetimeCalls : list Call :=
  [ CallCheck 0
      {| given_circuitBreakerId := Some "lifetimeBreakerTest"%string;
         given_maxErrorCount := Some 2; given_timeRange := Some 6;
         given_halfOpenSuccesses := Some 3; given_recoverPeriod := Some 3;
         given_communicationError := None;
         given_returnCodes := Some "[300-998]"%string;
         given_maxResponseTime := None |};
    CallUpdate 10 "a" (response "lifetimeBreakerTest" 200);
    CallUpdate 20 "b" (response "lifetimeBreakerTest" 500);
    CallCheck 30 (onlyId "lifetimeBreakerTest");
    CallUpdate 40 "c" (response "lifetimeBreakerTest" 401);
    CallCheck 50 (onlyId "lifetimeBreakerTest");
    CallCheck 4050 (onlyId "lifetimeBreakerTest");
    CallUpdate 4060 "d" (response "lifetimeBreakerTest" 200);
    CallCheck 4070 (onlyId "lifetimeBreakerTest");
    CallUpdate 4080 "e" (response "lifetimeBreakerTest" 200);
    CallUpdate 4090 "f" (response "lifetimeBreakerTest" 200);
    CallCheck 4100 (onlyId "lifetimeBreakerTest") ].

(** 'should reset the Circuit-Breaker to open - When Half-Open and an Error
    occurs' *)
Definition relapseCalls : list Call :=
  [ CallCheck 0
      {| given_circuitBreakerId := Some "resetToOpenBreaker"%string;
         given_maxErrorCount := Some 1; given_timeRange := Some 6;
         given_halfOpenSuccesses := Some 3; given_recoverPeriod := Some 3;
         given_communicationError := None;
         given_returnCodes := Some "[300-999]"%string;
         given_maxResponseTime := None |};
    CallUpdate 10 "a" (response "resetToOpenBreaker" 500);
    CallCheck 4010 (onlyId "resetToOpenBreaker");
    CallUpdate 4020 "b" (response "resetToOpenBreaker" 403) ].

(** ** Vocabulary of the further properties *)

(** The clock reading an invocation observes. *)
Definition call_time (c : Call) : Z :=
  match c with
  | CallCheck now _ => now
  | CallUpdate now _ _ => now
  end.

(** The identifier an invocation is made for, as passed. *)
Definition call_identifier (c : Call) : option string :=
  match c with
  | CallCheck _ given => given_circuitBreakerId given
  | CallUpdate _ _ given => upd_circuitBreakerId given
  end.

(** The clock never goes back during the calls, nor below [t]. *)
Fixpoint chronological (t : Z) (calls : list Call) : Prop :=
  match calls with
  | [] => True
  | c :: rest => t <= call_time c /\ chronological (call_time c) rest
  end.

(** An error list whose stamps never decrease. *)
Fixpoint ascending (l : list ErrorEvent) : Prop :=
  match l with
  | [] => True
  | e :: rest =>
      Forall (fun x => timestamp e <= timestamp x) rest /\ ascending rest
  end.

(** The errors of a breaker were recorded in order, none later than [t]. *)
Definition recorded_by (t : Z) (cb : CircuitBreaker) : Prop :=
  ascending (errors cb) /\ Forall (fun e => timestamp e <= t) (errors cb).

(** The status of a breaker against the number of errors it holds. *)
Definition threshold_invariant (cb : CircuitBreaker) : Prop :=
  (status cb <> closed ->
   maxErrorCount (params cb) <= Z.of_nat (length (errors cb))) /\
  (0 < maxErrorCount (params cb) ->
   status cb = closed ->
   Z.of_nat (length (errors cb)) < maxErrorCount (params cb)).

(** What every stored breaker looks like. *)
Definition shape_invariant (id : string) (cb : CircuitBreaker) : Prop :=
  circuitBreakerId (params cb) = id /\
  0 <= successCount cb /\
  output cb <> out_error /\
  (status cb <> closed -> is_Some (openedTimestamp cb)).

(** A series of updates for one identifier, each with its clock reading,
    error id and response code. *)
Definition updates (id : string) (l : list (Z * string * Z)) : list Call :=
  map (fun '(now, errorId, code) => CallUpdate now errorId (response id code)) l.

(** * Properties *)

(** ** The test suite, replayed

    The embedding gives at every step the output, status, error count and
    success count that the plugin's tests expect of the implementation. *)

Example test_errors_disappear :
  observe disappearCalls ∅
  = [ (out_next, Some (closed, 0%nat, 0));
      (out_next, Some (open, 1%nat, 0));
      (out_next, Some (closed, 0%nat, 0)) ].
Proof. vm_compute. reflexivity. Qed.

Example test_lifetime :
  observe lifetimeCalls ∅
  = [ (out_next, Some (closed, 0%nat, 0));
      (out_next, Some (closed, 0%nat, 1));
      (out_next, Some (closed, 1%nat, 1));
      (out_next, Some (closed, 1%nat, 1));
      (out_next, Some (open, 2%nat, 1));
      (out_open, Some (open, 2%nat, 1));
      (out_next, Some (halfopen, 2%nat, 0));
      (out_next, Some (halfopen, 2%nat, 1));
      (out_open, Some (halfopen, 2%nat, 1));
      (out_next, Some (halfopen, 2%nat, 2));
      (out_next, Some (halfopen, 2%nat, 3));
      (out_next, Some (closed, 0%nat, 3)) ].
Proof. vm_compute. reflexivity. Qed.

Example test_relapse :
  observe relapseCalls ∅
  = [ (out_next, Some (closed, 0%nat, 0));
      (out_next, Some (open, 1%nat, 0));
      (out_next, Some (halfopen, 1%nat, 0));
      (out_next, Some (open, 2%nat, 0)) ].
Proof. vm_compute. reflexivity. Qed.

Example test_combined_pattern :
  parseReturnCodes "500" 499 = false /\
  parseReturnCodes "500" 500 = true /\
  parseReturnCodes "[300-500], 999" 600 = false /\
  parseReturnCodes "[300-500], 999" 307 = true.
Proof. by vm_compute. Qed.

(** ** Error window *)

Section ErrorWindow.

Context {A : Type} (callback : A -> nat -> list A -> list A).

Lemma forEach_from_past_end remaining index (object : list A) :
  (length object <= index)%nat ->
  JS.forEach_from callback remaining index object = object.
Proof.
  revert index object.
  induction remaining as [|n IH]; intros index object Hlen; [done|].
  cbn [JS.forEach_from].
  rewrite (lookup_ge_None_2 object index) by lia.
  apply IH. lia.
Qed.

End ErrorWindow.

Lemma in_window_expired now cb e :
  in_window now cb e = negb (timestamp e <? now - timeRange (params cb) * 1000).
Proof. unfold in_window. destruct (Z.ltb_spec (timestamp e) (now - timeRange (params cb) * 1000)), (Z.leb_spec (now - timeRange (params cb) * 1000) (timestamp e)); simpl; lia || done. Qed.

Lemma forEach_expire_from now cb (rest seen : list ErrorEvent) :
  JS.forEach_from (expire now cb) (length rest) (length seen) (seen ++ rest)
  = seen ++ window_prefix now cb rest.
Proof.
  revert seen.
  induction rest as [|e rest IH]; intros seen; [done|].
  cbn [length JS.forEach_from window_prefix].
  rewrite list_lookup_middle by done.
  unfold expire at 2. rewrite in_window_expired.
  destruct (timestamp e <? now - timeRange (params cb) * 1000); cbn [negb].
  - unfold JS.splice. rewrite take_app_length.
    rewrite forEach_from_past_end by lia.
    by rewrite app_nil_r.
  - replace (S (length seen)) with (length (seen ++ [e]))
      by (rewrite length_app; simpl; lia).
    rewrite (cons_middle e seen rest), app_assoc, IH.
    by rewrite <- app_assoc.
Qed.

(** What the [forEach]/[splice] loop of [_handleOpenStatus] computes: the
    array is cut at the first expired entry. *)
Lemma forEach_expire now cb (l : list ErrorEvent) :
  JS.forEach (expire now cb) l = window_prefix now cb l.
Proof. apply (forEach_expire_from now cb l []). Qed.

Lemma window_prefix_all_inside now cb l e :
  e ∈ window_prefix now cb l -> in_window now cb e = true.
Proof.
  induction l as [|x l IH]; cbn [window_prefix]; [by intros ?%elem_of_nil|].
  destruct (in_window now cb x) eqn:Hx; [|by intros ?%elem_of_nil].
  intros [->|?]%elem_of_cons; auto.
Qed.

Lemma window_prefix_is_prefix now cb l : window_prefix now cb l `prefix_of` l.
Proof.
  induction l as [|x l IH]; cbn [window_prefix]; [done|].
  destruct (in_window now cb x); [by apply prefix_cons|apply prefix_nil].
Qed.

Lemma window_prefix_params now cb1 cb2 l :
  params cb1 = params cb2 -> window_prefix now cb1 l = window_prefix now cb2 l.
Proof.
  intros Hpar. induction l as [|e l IH]; [done|].
  cbn [window_prefix]. unfold in_window. by rewrite Hpar, IH.
Qed.

(** A check of an open breaker whose recovery period has not elapsed: the
    error list is cut to its longest prefix of entries inside the window,
    and the breaker closes when fewer than [maxErrorCount] remain. *)
Lemma _handleOpenStatus_waiting now cb :
  opened_before cb (now - recoverPeriod (params cb) * 1000) = false ->
  let kept := window_prefix now cb (errors cb) in
  _handleOpenStatus now cb ApiBuilderLogger
  = if Z.of_nat (length kept) <? maxErrorCount (params cb)
    then (set_output out_next (set_status closed
            (set_errors kept (set_output out_open cb))), Return)
    else (set_errors kept (set_output out_open cb), Return).
Proof.
  intros Hwait kept. unfold _handleOpenStatus.
  rewrite forEach_expire.
  change (opened_before (set_output out_open cb)
            (now - recoverPeriod (params (set_output out_open cb)) * 1000))
    with (opened_before cb (now - recoverPeriod (params cb) * 1000)).
  rewrite Hwait.
  rewrite (window_prefix_params now (set_output out_open cb) cb) by done.
  done.
Qed.

(** C1 (violated by the code).  The claim: while a breaker is open and its
    recovery period has not elapsed, a check removes exactly the entries
    older than [now - timeRange * 1000] and never drops an entry inside the
    window.  In the run [demoCalls] the breaker is open since 400002 with
    entries stamped 1000, 400000, 400001 and 400002; at 400010 only the
    first is outside the five-minute window, yet the check empties the list
    and closes the breaker, where three entries (the allowed maximum) should
    have kept it open. *)
Theorem check_drops_entries_inside_window :
  exists cb cb' e,
    demoCache !! "backend"%string = Some cb /\
    status cb = open /\
    opened_before cb (400010 - recoverPeriod (params cb) * 1000) = false /\
    e ∈ errors cb /\
    in_window 400010 cb e = true /\
    length (filter (fun x => in_window 400010 cb x = true) (errors cb)) = 3%nat /\
    maxErrorCount (params cb) = 3 /\
    configCheckCircuitBreaker 400010 demoParams demoCache
    = (<["backend"%string := cb']> demoCache, Returned out_next cb') /\
    errors cb' = [] /\
    status cb' = closed.
Proof.
  eexists _, _, (mkErrorEvent "e2" 400000 "responseCode 500").
  split; [vm_compute; reflexivity|].
  split; [reflexivity|]. split; [reflexivity|].
  split; [cbn; set_solver|].
  split; [reflexivity|]. split; [reflexivity|]. split; [reflexivity|].
  split; [vm_compute; reflexivity|].
  split; reflexivity.
Qed.

(** ** Checks *)

Lemma truthy_string_Some x id :
  JS.truthy_string x = Some id <-> x = Some id /\ id <> EmptyString.
Proof.
  destruct x as [[|c s]|]; cbn; split; try (intros [? ?]); try intros ?;
    simplify_eq; try done.
Qed.

Lemma truthy_string_None x :
  JS.truthy_string x = None <-> absent_or_empty x.
Proof.
  unfold absent_or_empty.
  destruct x as [[|c s]|]; cbn; split; try intros [?|?]; try intros ?;
    simplify_eq; auto.
Qed.

Lemma truthy_number_Some x code :
  JS.truthy_number x = Some code <-> x = Some code /\ code <> 0.
Proof.
  destruct x as [[|p|p]|]; cbn; split; try (intros [? ?]); try intros ?;
    simplify_eq; try done.
Qed.

Lemma truthy_number_None x :
  JS.truthy_number x = None <-> x = None \/ x = Some 0.
Proof.
  destruct x as [[|p|p]|]; cbn; split; try intros [?|?]; try intros ?;
    simplify_eq; auto.
Qed.

Lemma remainder_even n : (JS.remainder n 2 =? 0) = Z.even n.
Proof.
  unfold JS.remainder.
  destruct (Z.eqb_spec (Z.rem n 2) 0) as [H|H].
  - apply Z.rem_divide in H; [|done]. symmetry. apply Z.even_spec.
    destruct H as [k ->]. exists k. lia.
  - destruct (Z.even n) eqn:He; [|done].
    exfalso. apply H. apply Z.even_spec in He as [k ->].
    rewrite Z.mul_comm. by apply Z.rem_mul.
Qed.

(** The outcomes of the half-open handler when it is given the logger. *)
Lemma _handleHalfopenStatus_logged cb :
  _handleHalfopenStatus cb (Some ApiBuilderLogger) =
  if halfOpenSuccesses (params cb) <=? successCount cb
  then (set_errors [] (set_output out_next (set_status closed cb)), Return)
  else (set_output (parity_route cb) cb, Return).
Proof.
  unfold _handleHalfopenStatus, parity_route. rewrite remainder_even.
  destruct (Z.even (successCount cb)); cbn [successCount params set_output];
    rewrite Z.geb_leb; by destruct (_ <=? _).
Qed.

(** The outcomes of the half-open handler when the logger is missing. *)
Lemma _handleHalfopenStatus_unlogged cb :
  _handleHalfopenStatus cb None =
  if halfOpenSuccesses (params cb) <=? successCount cb
  then (set_output (parity_route cb) cb, Throw (TypeError "debug"))
  else (set_output (parity_route cb) cb, Return).
Proof.
  unfold _handleHalfopenStatus, parity_route. rewrite remainder_even.
  destruct (Z.even (successCount cb)); cbn [successCount params set_output];
    rewrite Z.geb_leb; by destruct (_ <=? _).
Qed.

Lemma _handleHalfopenStatus_frame cb logger :
  same_frame cb (_handleHalfopenStatus cb logger).1.
Proof.
  unfold _handleHalfopenStatus, same_frame.
  repeat case_match; cbn; done.
Qed.

Lemma _handleOpenStatus_frame now cb logger :
  same_frame cb (_handleOpenStatus now cb logger).1.
Proof.
  unfold _handleOpenStatus. case_match.
  - destruct (_handleHalfopenStatus_frame
                (set_successCount 0 (set_status halfopen (set_output out_open cb)))
                None) as (? & ? & ?).
    repeat split; cbn in *; congruence.
  - unfold same_frame. case_match; cbn; done.
Qed.

(** A check with a usable identifier stores one record under it, which
    keeps the frame of the record it started from. *)
Lemma configCheckCircuitBreaker_frame now given id cache :
  JS.truthy_string (given_circuitBreakerId given) = Some id ->
  exists cb',
    (configCheckCircuitBreaker now given cache).1 = <[id := cb']> cache /\
    same_frame (default (newCircuitBreaker id given) (cache !! id)) cb'.
Proof.
  intros Hid. unfold configCheckCircuitBreaker. rewrite Hid.
  set (cb := match cache !! id with Some cb => cb | None => _ end).
  replace (default (newCircuitBreaker id given) (cache !! id)) with cb
    by (subst cb; by destruct (cache !! id)).
  destruct (status cb).
  - eexists. split; [reflexivity|]. by unfold same_frame.
  - pose proof (_handleOpenStatus_frame now cb ApiBuilderLogger) as Hf.
    destruct (_handleOpenStatus now cb ApiBuilderLogger) as [cb' []];
      eexists; (split; [reflexivity|exact Hf]).
  - pose proof (_handleHalfopenStatus_frame cb (Some ApiBuilderLogger)) as Hf.
    destruct (_handleHalfopenStatus cb (Some ApiBuilderLogger)) as [cb' []];
      eexists; (split; [reflexivity|exact Hf]).
Qed.

(** C2 (counterexample).  The breaker of [demoCache] opened at 400002 with a
    recovery period of 30 seconds.  At 430002, exactly 30000 ms later, a
    check still takes the open path (and closes the breaker, its error list
    having been cut to nothing), whereas a check of the same breaker already
    half-open leaves it half-open. *)
Lemma recovery_boundary_is_excluded : ~ recovery_boundary_included.
Proof.
  intros Hclaim.
  pose (cb := default (newCircuitBreaker "backend" demoParams)
                      (demoCache !! "backend"%string)).
  specialize (Hclaim 430002 demoParams "backend"%string cb 400002 demoCache).
  assert (Heq := Hclaim eq_refl
                   ltac:(vm_compute; reflexivity) eq_refl eq_refl
                   ltac:(vm_compute; discriminate)).
  apply (f_equal (fun r => match r.2 with
                           | Returned _ v => Some (status v)
                           | Threw _ => None
                           end)) in Heq.
  vm_compute in Heq. discriminate.
Qed.

(** C2 (amended).  For a breaker in status open, a check made strictly
    later than [recoverPeriod * 1000] ms after [openedTimestamp] moves the
    breaker to half-open with [successCount = 0]; and when
    [halfOpenSuccesses] is positive it answers in the same call what the
    half-open logic answers for that state: the breaker stays half-open and
    the route is next. *)
Theorem open_recovers_to_halfopen now given id cb t cache :
  JS.truthy_string (given_circuitBreakerId given) = Some id ->
  cache !! id = Some cb ->
  status cb = open ->
  openedTimestamp cb = Some t ->
  recoverPeriod (params cb) * 1000 < now - t ->
  let probing := set_output out_next (enter_halfopen cb) in
  (configCheckCircuitBreaker now given cache).1 = <[id := probing]> cache /\
  status probing = halfopen /\
  successCount probing = 0 /\
  (0 < halfOpenSuccesses (params cb) ->
   configCheckCircuitBreaker now given cache
   = (<[id := probing]> cache, Returned out_next probing) /\
   configCheckCircuitBreaker now given cache
   = configCheckCircuitBreaker now given (<[id := enter_halfopen cb]> cache)).
Proof.
  intros Hid Hcb Hst Ht Hlate probing.
  assert (Hopen : _handleOpenStatus now cb ApiBuilderLogger
                  = (probing,
                     if halfOpenSuccesses (params cb) <=? 0
                     then Throw (TypeError "debug") else Return)).
  { unfold _handleOpenStatus, opened_before. cbn. rewrite Ht.
    destruct (Z.ltb_spec t (now - recoverPeriod (params cb) * 1000)); [|lia].
    rewrite _handleHalfopenStatus_unlogged. cbn.
    by destruct (halfOpenSuccesses (params cb) <=? 0). }
  split; [|split; [done|split; [done|]]].
  - unfold configCheckCircuitBreaker. rewrite Hid, Hcb, Hst, Hopen.
    by destruct (halfOpenSuccesses (params cb) <=? 0).
  - intros Hpos.
    assert (Hhalf : _handleHalfopenStatus (enter_halfopen cb) (Some ApiBuilderLogger)
                    = (probing, Return)).
    { rewrite _handleHalfopenStatus_logged. cbn.
      destruct (Z.leb_spec (halfOpenSuccesses (params cb)) 0); [lia|done]. }
    assert (Hleft : configCheckCircuitBreaker now given cache
                    = (<[id := probing]> cache, Returned out_next probing)).
    { unfold configCheckCircuitBreaker. rewrite Hid, Hcb, Hst, Hopen.
      destruct (Z.leb_spec (halfOpenSuccesses (params cb)) 0); [lia|done]. }
    split; [exact Hleft|].
    rewrite Hleft. unfold configCheckCircuitBreaker.
    rewrite Hid, lookup_insert_eq.
    cbn [status enter_halfopen set_successCount set_status].
    rewrite Hhalf. by rewrite insert_insert_eq.
Qed.

Lemma open_recovers_to_halfopen_witness :
  let cb := default (newCircuitBreaker "backend" demoParams)
                    (demoCache !! "backend"%string) in
  let probing := set_output out_next (enter_halfopen cb) in
  (configCheckCircuitBreaker 430003 demoParams demoCache).1
  = <["backend"%string := probing]> demoCache /\
  status probing = halfopen /\
  successCount probing = 0 /\
  (0 < halfOpenSuccesses (params cb) ->
   configCheckCircuitBreaker 430003 demoParams demoCache
   = (<["backend"%string := probing]> demoCache, Returned out_next probing) /\
   configCheckCircuitBreaker 430003 demoParams demoCache
   = configCheckCircuitBreaker 430003 demoParams
       (<["backend"%string := enter_halfopen cb]> demoCache)).
Proof.
  intros cb.
  apply (open_recovers_to_halfopen 430003 demoParams "backend"%string cb 400002 demoCache).
  - reflexivity.
  - vm_compute; reflexivity.
  - reflexivity.
  - reflexivity.
  - vm_compute; reflexivity.
Defined.

(** C4.  For a breaker in status half-open, a check routes next when
    [successCount] is even and open when it is odd, except that whenever
    [successCount >= halfOpenSuccesses] the breaker becomes closed, its error
    list becomes empty and the route is next. *)
Theorem halfopen_check_routes_by_parity now given id cb cache :
  JS.truthy_string (given_circuitBreakerId given) = Some id ->
  cache !! id = Some cb ->
  status cb = halfopen ->
  (halfOpenSuccesses (params cb) <= successCount cb ->
   exists cb',
     configCheckCircuitBreaker now given cache
     = (<[id := cb']> cache, Returned out_next cb') /\
     cb' = set_errors [] (set_output out_next (set_status closed cb)) /\
     status cb' = closed /\ errors cb' = []) /\
  (successCount cb < halfOpenSuccesses (params cb) ->
   Z.even (successCount cb) = true ->
   configCheckCircuitBreaker now given cache
   = (<[id := set_output out_next cb]> cache,
      Returned out_next (set_output out_next cb))) /\
  (successCount cb < halfOpenSuccesses (params cb) ->
   Z.odd (successCount cb) = true ->
   configCheckCircuitBreaker now given cache
   = (<[id := set_output out_open cb]> cache,
      Returned out_open (set_output out_open cb))).
Proof.
  intros Hid Hcb Hst.
  unfold configCheckCircuitBreaker.
  rewrite Hid, Hcb, Hst, _handleHalfopenStatus_logged. unfold parity_route.
  split; [|split].
  - intros Hge.
    destruct (Z.leb_spec (halfOpenSuccesses (params cb)) (successCount cb)); [|lia].
    eexists. repeat split.
  - intros Hlt Heven.
    destruct (Z.leb_spec (halfOpenSuccesses (params cb)) (successCount cb)); [lia|].
    by rewrite Heven.
  - intros Hlt Hodd.
    destruct (Z.leb_spec (halfOpenSuccesses (params cb)) (successCount cb)); [lia|].
    rewrite <- Z.negb_odd, Hodd. done.
Qed.

(** A half-open breaker that has seen three successes of the five it needs. *)
Lemma halfopen_check_routes_by_parity_witness :
  let cb := set_successCount 3 (enter_halfopen (newCircuitBreaker "backend" demoParams)) in
  let cache : gmap string CircuitBreaker := {[ "backend"%string := cb ]} in
  (halfOpenSuccesses (params cb) <= successCount cb ->
   exists cb',
     configCheckCircuitBreaker 7 demoParams cache
     = (<["backend"%string := cb']> cache, Returned out_next cb') /\
     cb' = set_errors [] (set_output out_next (set_status closed cb)) /\
     status cb' = closed /\ errors cb' = []) /\
  (successCount cb < halfOpenSuccesses (params cb) ->
   Z.even (successCount cb) = true ->
   configCheckCircuitBreaker 7 demoParams cache
   = (<["backend"%string := set_output out_next cb]> cache,
      Returned out_next (set_output out_next cb))) /\
  (successCount cb < halfOpenSuccesses (params cb) ->
   Z.odd (successCount cb) = true ->
   configCheckCircuitBreaker 7 demoParams cache
   = (<["backend"%string := set_output out_open cb]> cache,
      Returned out_open (set_output out_open cb))).
Proof.
  intros cb cache.
  apply (halfopen_check_routes_by_parity 7 demoParams "backend"%string cb cache).
  - reflexivity.
  - vm_compute; reflexivity.
  - reflexivity.
Defined.

(** C8.  A check for an identifier without state creates a closed breaker
    with no errors, [successCount = 0] and the supplied parameters laid over
    the defaults (10, 300, 5, 30, ["[300-999]"], 100, [true]); a check for an
    identifier that has a breaker leaves the stored parameters as they are,
    whatever parameters it is given. *)
Theorem check_creates_once now given id cache :
  JS.truthy_string (given_circuitBreakerId given) = Some id ->
  (cache !! id = None ->
   exists cb,
     configCheckCircuitBreaker now given cache
     = (<[id := cb]> cache, Returned out_next cb) /\
     status cb = closed /\ errors cb = [] /\ successCount cb = 0 /\
     maxErrorCount (params cb) = default 10 (given_maxErrorCount given) /\
     timeRange (params cb) = default 300 (given_timeRange given) /\
     halfOpenSuccesses (params cb) = default 5 (given_halfOpenSuccesses given) /\
     recoverPeriod (params cb) = default 30 (given_recoverPeriod given) /\
     returnCodes (params cb) = default "[300-999]"%string (given_returnCodes given) /\
     maxResponseTime (params cb) = default 100 (given_maxResponseTime given) /\
     communicationError (params cb) = default true (given_communicationError given)) /\
  (forall cb,
      cache !! id = Some cb ->
      exists cb',
        (configCheckCircuitBreaker now given cache).1 !! id = Some cb' /\
        params cb' = params cb).
Proof.
  intros Hid. split.
  - intros Hnone. unfold configCheckCircuitBreaker. rewrite Hid, Hnone. cbn.
    eexists. split; [reflexivity|]. repeat split.
  - intros cb Hcb.
    destruct (configCheckCircuitBreaker_frame now given id cache Hid)
      as (cb' & -> & Hp & _).
    exists cb'. rewrite lookup_insert_eq. rewrite Hcb in Hp. done.
Qed.

Lemma check_creates_once_witness :
  ((∅ : gmap string CircuitBreaker) !! "backend"%string = None ->
   exists cb,
     configCheckCircuitBreaker 0 demoParams ∅
     = (<["backend"%string := cb]> ∅, Returned out_next cb) /\
     status cb = closed /\ errors cb = [] /\ successCount cb = 0 /\
     maxErrorCount (params cb) = default 10 (given_maxErrorCount demoParams) /\
     timeRange (params cb) = default 300 (given_timeRange demoParams) /\
     halfOpenSuccesses (params cb) = default 5 (given_halfOpenSuccesses demoParams) /\
     recoverPeriod (params cb) = default 30 (given_recoverPeriod demoParams) /\
     returnCodes (params cb) = default "[300-999]"%string (given_returnCodes demoParams) /\
     maxResponseTime (params cb) = default 100 (given_maxResponseTime demoParams) /\
     communicationError (params cb) = default true (given_communicationError demoParams)) /\
  (forall cb,
      (∅ : gmap string CircuitBreaker) !! "backend"%string = Some cb ->
      exists cb',
        (configCheckCircuitBreaker 0 demoParams ∅).1 !! "backend"%string = Some cb' /\
        params cb' = params cb).
Proof.
  apply (check_creates_once 0 demoParams "backend"%string ∅).
  reflexivity.
Defined.

(** ** Validation *)

Lemma missing_not_TypeError field property : missing field <> TypeError property.
Proof. done. Qed.

Lemma _handleHalfopenStatus_throws cb logger cb' e :
  _handleHalfopenStatus cb logger = (cb', Throw e) -> e = TypeError "debug".
Proof.
  unfold _handleHalfopenStatus. repeat case_match; intros; by simplify_eq.
Qed.

Lemma _handleOpenStatus_throws now cb logger cb' e :
  _handleOpenStatus now cb logger = (cb', Throw e) -> e = TypeError "debug".
Proof.
  unfold _handleOpenStatus. repeat case_match; intros; simplify_eq.
  by eapply _handleHalfopenStatus_throws.
Qed.

(** With a usable identifier a check never fails for a missing parameter. *)
Lemma configCheckCircuitBreaker_validated now given id cache :
  JS.truthy_string (given_circuitBreakerId given) = Some id ->
  ~ raises_missing (configCheckCircuitBreaker now given cache).2.
Proof.
  intros Hid [field Hthrow]. revert Hthrow.
  unfold configCheckCircuitBreaker. rewrite Hid.
  destruct (status _).
  - done.
  - destruct (_handleOpenStatus _ _ _) as [cb' [|e]] eqn:Hh; [done|].
    apply _handleOpenStatus_throws in Hh as ->. done.
  - destruct (_handleHalfopenStatus _ _) as [cb' [|e]] eqn:Hh; [done|].
    apply _handleHalfopenStatus_throws in Hh as ->. done.
Qed.

(** The classifier on a stored breaker and a defined code: it answers, and
    the record it leaves differs from the one it found in the cache entry
    for that code at most. *)
Lemma _isReturnCodeAnError_defined cb code :
  exists isError cb1 how,
    _isReturnCodeAnError (Some cb) (Some code) = inr (isError, Some cb1, how) /\
    errorCodeMap cb1 = <[code := isError]> (errorCodeMap cb) /\
    status cb1 = status cb /\ output cb1 = output cb /\
    errors cb1 = errors cb /\ successCount cb1 = successCount cb /\
    params cb1 = params cb /\ openedTimestamp cb1 = openedTimestamp cb /\
    (errorCodeMap cb !! code = Some isError /\ how = CacheHit /\ cb1 = cb \/
     errorCodeMap cb !! code = None /\ how = Parsed /\
     isError = parseReturnCodes (returnCodes (params cb)) code).
Proof.
  unfold _isReturnCodeAnError.
  destruct (errorCodeMap cb !! code) as [cached|] eqn:Hc.
  - exists cached, cb, CacheHit. rewrite insert_id by done. repeat split; auto.
  - eexists _, _, Parsed. split; [reflexivity|]. repeat split; auto.
Qed.

(** An update that passes validation on a stored breaker: the record it
    writes back, in terms of the classifier's answer. *)
Lemma updateCircuitBreaker_stored now errorId given id code cb cache :
  JS.truthy_string (upd_circuitBreakerId given) = Some id ->
  JS.truthy_number (upd_httpResponseCode given) = Some code ->
  cache !! id = Some cb ->
  exists isError cb1 how cb',
    _isReturnCodeAnError (Some cb) (Some code) = inr (isError, Some cb1, how) /\
    updateCircuitBreaker now errorId given cache
    = (<[id := cb']> cache, Returned out_next cb') /\
    errorCodeMap cb' = <[code := isError]> (errorCodeMap cb) /\
    params cb' = params cb /\
    output cb' = output cb /\
    if isError then
      errors cb' = errors cb ++ [errorEvent now errorId code] /\
      successCount cb' = successCount cb /\
      (must_open cb -> status cb' = open /\ openedTimestamp cb' = Some now) /\
      (~ must_open cb ->
       status cb' = status cb /\ openedTimestamp cb' = openedTimestamp cb)
    else
      successCount cb' = successCount cb + 1 /\
      errors cb' = errors cb /\
      status cb' = status cb /\
      openedTimestamp cb' = openedTimestamp cb.
Proof.
  intros Hid Hcode Hcb.
  destruct (_isReturnCodeAnError_defined cb code)
    as (isError & cb1 & how & Hcl & Hmap & Hst & Hout & Herr & Hsc & Hpar & Hot & _).
  exists isError, cb1, how.
  unfold updateCircuitBreaker. rewrite Hid, Hcode, Hcb, Hcl.
  eexists. split; [done|]. split; [reflexivity|].
  destruct isError.
  - cbn [status set_errors params errors].
    rewrite length_app, Herr, Hpar, Hst. cbn [length].
    assert (Hdec : bool_decide (status cb = halfopen)
              || (maxErrorCount (params cb) <=? Z.of_nat (length (errors cb) + 1))
              = true <-> must_open cb).
    { unfold must_open. rewrite orb_true_iff, bool_decide_eq_true, Z.leb_le.
      split; (intros [?|?]; [by left|right; lia]). }
    destruct (bool_decide (status cb = halfopen)
              || (maxErrorCount (params cb) <=? Z.of_nat (length (errors cb) + 1)));
      cbn; rewrite ?Hmap, ?Hpar, ?Hout, ?Herr, ?Hsc, ?Hst, ?Hot.
    + assert (must_open cb) by (by apply Hdec).
      do 5 (split; [done|]). split; [done|]. by intros ?.
    + assert (~ must_open cb) by (rewrite <- Hdec; congruence).
      do 5 (split; [done|]). split; [by intros ?|done].
  - cbn. rewrite Hmap, Hpar, Hout, Herr, Hsc, Hst, Hot. repeat split; done.
Qed.

(** With both parameters usable an update never fails for a missing
    parameter. *)
Lemma updateCircuitBreaker_validated now errorId given id code cache :
  JS.truthy_string (upd_circuitBreakerId given) = Some id ->
  JS.truthy_number (upd_httpResponseCode given) = Some code ->
  ~ raises_missing (updateCircuitBreaker now errorId given cache).2.
Proof.
  intros Hid Hcode [field Hthrow]. revert Hthrow.
  destruct (cache !! id) as [cb|] eqn:Hcb.
  - destruct (updateCircuitBreaker_stored now errorId given id code cb cache
                Hid Hcode Hcb) as (? & ? & ? & ? & _ & -> & _). done.
  - unfold updateCircuitBreaker. rewrite Hid, Hcode, Hcb. done.
Qed.

(** C3 (counterexample).  An update carrying the response code [0] is
    rejected for a missing [httpResponseCode] although the code is present. *)
Lemma missing_raised_for_present_code : ~ missing_iff_absent.
Proof.
  intros (_ & Hupdate & _).
  destruct (Hupdate 0 "e"%string
              {| upd_circuitBreakerId := Some "backend"%string;
                 upd_httpResponseCode := Some 0 |} ∅) as [Hraise _].
  destruct Hraise as [[?|?]|?]; [|done..].
  by exists "httpResponseCode"%string.
Qed.

(** C3 (amended).  A check fails for a missing parameter exactly when the
    identifier is absent or empty; an update does exactly when the identifier
    is absent or empty or the response code is absent or [0].  The error
    names the field, and the call neither writes nor reads the store: run
    against any other store it leaves that store as it is and fails the same
    way. *)
Theorem missing_parameter_validation :
  (forall now given cache,
      raises_missing (configCheckCircuitBreaker now given cache).2 <->
      absent_or_empty (given_circuitBreakerId given)) /\
  (forall now errorId given cache,
      raises_missing (updateCircuitBreaker now errorId given cache).2 <->
      absent_or_empty (upd_circuitBreakerId given) \/
      upd_httpResponseCode given = None \/ upd_httpResponseCode given = Some 0) /\
  (forall now given cache,
      raises_missing (configCheckCircuitBreaker now given cache).2 ->
      forall cache',
        configCheckCircuitBreaker now given cache'
        = (cache', Threw (missing "circuitBreakerId"))) /\
  (forall now errorId given cache,
      raises_missing (updateCircuitBreaker now errorId given cache).2 ->
      forall cache',
        updateCircuitBreaker now errorId given cache'
        = (cache',
           Threw (missing (match JS.truthy_string (upd_circuitBreakerId given) with
                           | Some _ => "httpResponseCode"
                           | None => "circuitBreakerId"
                           end)))).
Proof.
  assert (Hcheck : forall now given cache,
             raises_missing (configCheckCircuitBreaker now given cache).2 <->
             JS.truthy_string (given_circuitBreakerId given) = None).
  { intros now given cache. split.
    - intros Hraise.
      destruct (JS.truthy_string (given_circuitBreakerId given)) as [id|] eqn:Hid;
        [|done].
      by destruct (configCheckCircuitBreaker_validated now given id cache Hid).
    - intros Hid. unfold configCheckCircuitBreaker. rewrite Hid.
      by exists "circuitBreakerId"%string. }
  assert (Hupdate : forall now errorId given cache,
             raises_missing (updateCircuitBreaker now errorId given cache).2 <->
             JS.truthy_string (upd_circuitBreakerId given) = None \/
             JS.truthy_number (upd_httpResponseCode given) = None).
  { intros now errorId given cache. split.
    - intros Hraise.
      destruct (JS.truthy_string (upd_circuitBreakerId given)) as [id|] eqn:Hid;
        [|by left].
      destruct (JS.truthy_number (upd_httpResponseCode given)) as [code|] eqn:Hcode;
        [|by right].
      by destruct (updateCircuitBreaker_validated now errorId given id code cache
                     Hid Hcode).
    - unfold updateCircuitBreaker.
      destruct (JS.truthy_string (upd_circuitBreakerId given)) as [id|].
      + intros [?|Hcode]; [done|]. rewrite Hcode.
        by exists "httpResponseCode"%string.
      + intros _. by exists "circuitBreakerId"%string. }
  split; [|split; [|split]].
  - intros. by rewrite Hcheck, truthy_string_None.
  - intros. by rewrite Hupdate, truthy_string_None, truthy_number_None.
  - intros now given cache Hraise%Hcheck cache'.
    unfold configCheckCircuitBreaker. by rewrite Hraise.
  - intros now errorId given cache Hraise%Hupdate cache'.
    unfold updateCircuitBreaker.
    destruct (JS.truthy_string (upd_circuitBreakerId given)); [|done].
    destruct Hraise as [?|Hcode]; [done|]. by rewrite Hcode.
Qed.

Lemma missing_parameter_validation_witness :
  raises_missing
    (updateCircuitBreaker 5 "e"
       {| upd_circuitBreakerId := Some "backend"%string;
          upd_httpResponseCode := None |} demoCache).2 /\
  updateCircuitBreaker 5 "e"
    {| upd_circuitBreakerId := Some "backend"%string;
       upd_httpResponseCode := None |} ∅
  = (∅, Threw (missing "httpResponseCode")).
Proof.
  destruct missing_parameter_validation as (_ & Hiff & _ & Huntouched).
  assert (Hraise : raises_missing
    (updateCircuitBreaker 5 "e"
       {| upd_circuitBreakerId := Some "backend"%string;
          upd_httpResponseCode := None |} demoCache).2).
  { apply Hiff. right. left. reflexivity. }
  split; [exact Hraise|].
  exact (Huntouched _ _ _ _ Hraise ∅).
Defined.

(** ** Updates *)

(** C9 (counterexample).  On an empty store an update with a usable
    identifier and code throws. *)
Lemma unknown_update_throws : ~ unknown_update_is_silent.
Proof.
  intros Hclaim.
  destruct (Hclaim 0 "e"%string demoFailure "backend"%string 500 ∅
              eq_refl eq_refl (lookup_empty _)) as [Hsilent _].
  by apply (Hsilent (TypeError "errorCodeMap")).
Qed.

(** C9 (amended).  An update with a usable identifier and response code for
    which no breaker is stored throws a [TypeError] (reading [errorCodeMap]
    of [undefined]), which is not a missing-parameter error and reaches the
    flow as route error; the store is left as it was. *)
Theorem update_unknown_identifier_throws now errorId given id code cache :
  JS.truthy_string (upd_circuitBreakerId given) = Some id ->
  JS.truthy_number (upd_httpResponseCode given) = Some code ->
  cache !! id = None ->
  updateCircuitBreaker now errorId given cache
  = (cache, Threw (TypeError "errorCodeMap")) /\
  route_of (updateCircuitBreaker now errorId given cache).2 = out_error /\
  ~ raises_missing (updateCircuitBreaker now errorId given cache).2.
Proof.
  intros Hid Hcode Hnone.
  assert (Heq : updateCircuitBreaker now errorId given cache
                = (cache, Threw (TypeError "errorCodeMap"))).
  { unfold updateCircuitBreaker. by rewrite Hid, Hcode, Hnone. }
  rewrite Heq. repeat split. by intros [field ?].
Qed.

Lemma update_unknown_identifier_throws_witness :
  updateCircuitBreaker 9 "e" demoFailure ∅
  = (∅, Threw (TypeError "errorCodeMap")) /\
  route_of (updateCircuitBreaker 9 "e" demoFailure ∅).2 = out_error /\
  ~ raises_missing (updateCircuitBreaker 9 "e" demoFailure ∅).2.
Proof.
  apply (update_unknown_identifier_throws 9 "e"%string demoFailure "backend"%string 500 ∅).
  - reflexivity.
  - reflexivity.
  - reflexivity.
Defined.

(** C5 (counterexample).  The first successful update of a fresh breaker
    with code 200 also records [200 ↦ false] in [errorCodeMap]. *)
Lemma update_also_fills_cache : ~ update_changes_nothing_else.
Proof.
  intros Hclaim.
  pose (cb := newCircuitBreaker "backend" demoParams).
  pose (cache := ({[ "backend"%string := cb ]} : gmap string CircuitBreaker)).
  assert (Hcb : cache !! "backend"%string = Some cb)
    by apply lookup_singleton_eq.
  assert (Hclass : _isReturnCodeAnError (Some cb) (Some 200)
                   = inr (false, Some (set_errorCodeMap (<[200 := false]> ∅) cb), Parsed))
    by (vm_compute; reflexivity).
  destruct (Hclaim 1 "e"%string
              {| upd_circuitBreakerId := Some "backend"%string;
                 upd_httpResponseCode := Some 200 |}
              "backend"%string 200 cb cache _ _ _ eq_refl eq_refl Hcb Hclass)
    as (cb' & Heq & Hmap & _).
  apply (f_equal (fun r => match r.2 with
                           | Returned _ v => errorCodeMap v !! 200
                           | Threw _ => None
                           end)) in Heq.
  cbn [snd] in Heq. rewrite Hmap in Heq.
  vm_compute in Heq. discriminate.
Qed.

(** C5 (amended).  For a stored breaker and an update that passes
    validation (usable identifier, response code present and not [0]):
    if the code is classified as an error, one event with [timestamp = now]
    is appended to [errors], its cause being ["responseCode <code>"] with
    the code in decimal digits (for codes up to [2^53] in absolute value),
    and [status] becomes open with [openedTimestamp = now] if and only if the
    status was half-open or the list, the new event included, has reached
    [maxErrorCount]; if the code is classified as a success, [successCount]
    grows by one.  In both cases the route is next and every other field is
    unchanged, except that [errorCodeMap] now holds the classification of the
    code. *)
Theorem update_records_outcome now errorId given id code cb cache :
  JS.truthy_string (upd_circuitBreakerId given) = Some id ->
  upd_httpResponseCode given = Some code ->
  code <> 0 ->
  cache !! id = Some cb ->
  exists isError cb1 how cb',
    _isReturnCodeAnError (Some cb) (Some code) = inr (isError, Some cb1, how) /\
    updateCircuitBreaker now errorId given cache
    = (<[id := cb']> cache, Returned out_next cb') /\
    errorCodeMap cb' = <[code := isError]> (errorCodeMap cb) /\
    params cb' = params cb /\
    output cb' = output cb /\
    if isError then
      (exists event,
          errors cb' = errors cb ++ [event] /\
          timestamp event = now /\
          error event = errorId /\
          (exact_number code ->
           cause event = "responseCode " +:+ pretty code)) /\
      successCount cb' = successCount cb /\
      (must_open cb -> status cb' = open /\ openedTimestamp cb' = Some now) /\
      (~ must_open cb ->
       status cb' = status cb /\ openedTimestamp cb' = openedTimestamp cb)
    else
      successCount cb' = successCount cb + 1 /\
      errors cb' = errors cb /\
      status cb' = status cb /\
      openedTimestamp cb' = openedTimestamp cb.
Proof.
  intros Hid Hcode Hnz Hcb.
  destruct (updateCircuitBreaker_stored now errorId given id code cb cache)
    as (isError & cb1 & how & cb' & Hclass & Heq & Hmap & Hpar & Hout & Hfields);
    [done|by apply truthy_number_Some|done|].
  exists isError, cb1, how, cb'.
  do 5 (split; [done|]).
  destruct isError; [|done].
  destruct Hfields as (Herr & Hsc & Hyes & Hno).
  split; [|done].
  exists (errorEvent now errorId code). by rewrite Herr.
Qed.

(** The fourth failure of [demoCalls], replayed on the cache before it. *)
Lemma update_records_outcome_witness :
  let cache := run (take 4 demoCalls) ∅ in
  let cb := default (newCircuitBreaker "backend" demoParams)
                    (cache !! "backend"%string) in
  exists isError cb1 how cb',
    _isReturnCodeAnError (Some cb) (Some 500) = inr (isError, Some cb1, how) /\
    updateCircuitBreaker 400002 "e4" demoFailure cache
    = (<["backend"%string := cb']> cache, Returned out_next cb') /\
    errorCodeMap cb' = <[500 := isError]> (errorCodeMap cb) /\
    params cb' = params cb /\
    output cb' = output cb /\
    if isError then
      (exists event,
          errors cb' = errors cb ++ [event] /\
          timestamp event = 400002 /\
          error event = "e4"%string /\
          (exact_number 500 ->
           cause event = "responseCode " +:+ pretty 500)) /\
      successCount cb' = successCount cb /\
      (must_open cb -> status cb' = open /\ openedTimestamp cb' = Some 400002) /\
      (~ must_open cb ->
       status cb' = status cb /\ openedTimestamp cb' = openedTimestamp cb)
    else
      successCount cb' = successCount cb + 1 /\
      errors cb' = errors cb /\
      status cb' = status cb /\
      openedTimestamp cb' = openedTimestamp cb.
Proof.
  intros cache cb.
  apply (update_records_outcome 400002 "e4"%string demoFailure "backend"%string
           500 cb cache).
  - reflexivity.
  - reflexivity.
  - lia.
  - vm_compute; reflexivity.
Defined.

(** C10.  Whatever update is invoked, every stored breaker keeps its status
    or becomes open: an update never moves a breaker to closed or half-open.
    The transitions open→half-open, open→closed and half-open→closed are
    made by checks. *)
Theorem update_only_opens :
  (forall now errorId given cache id cb,
      cache !! id = Some cb ->
      exists cb',
        (updateCircuitBreaker now errorId given cache).1 !! id = Some cb' /\
        (status cb' = status cb \/ status cb' = open) /\
        (status cb' = closed -> status cb = closed) /\
        (status cb' = halfopen -> status cb = halfopen)) /\
  (exists now given cache id cb cb',
      cache !! id = Some cb /\ status cb = open /\
      (configCheckCircuitBreaker now given cache).1 !! id = Some cb' /\
      status cb' = halfopen) /\
  (exists now given cache id cb cb',
      cache !! id = Some cb /\ status cb = open /\
      (configCheckCircuitBreaker now given cache).1 !! id = Some cb' /\
      status cb' = closed) /\
  (exists now given cache id cb cb',
      cache !! id = Some cb /\ status cb = halfopen /\
      (configCheckCircuitBreaker now given cache).1 !! id = Some cb' /\
      status cb' = closed).
Proof.
  split; [|split; [|split]].
  - intros now errorId given cache id cb Hcb.
    assert (Hsame : forall cb', cb' = cb ->
              (status cb' = status cb \/ status cb' = open) /\
              (status cb' = closed -> status cb = closed) /\
              (status cb' = halfopen -> status cb = halfopen)).
    { intros ? ->. auto. }
    destruct (JS.truthy_string (upd_circuitBreakerId given)) as [id0|] eqn:Hid;
      [|unfold updateCircuitBreaker; rewrite Hid; eauto].
    destruct (JS.truthy_number (upd_httpResponseCode given)) as [code|] eqn:Hcode;
      [|unfold updateCircuitBreaker; rewrite Hid, Hcode; eauto].
    destruct (cache !! id0) as [cb0|] eqn:Hcb0;
      [|unfold updateCircuitBreaker; rewrite Hid, Hcode, Hcb0; eauto].
    destruct (updateCircuitBreaker_stored now errorId given id0 code cb0 cache
                Hid Hcode Hcb0)
      as (isError & cb1 & how & cb' & _ & -> & _ & _ & _ & Hfields).
    cbn [fst].
    destruct (decide (id0 = id)) as [->|Hne];
      [|rewrite lookup_insert_ne by done; eauto].
    rewrite lookup_insert_eq. simplify_eq. exists cb'. split; [done|].
    destruct isError.
    + destruct Hfields as (_ & _ & Hyes & Hno).
      assert (Hdec : must_open cb \/ ~ must_open cb).
      { unfold must_open.
        destruct (decide (status cb = halfopen)); [by left; left|].
        destruct (Z_le_gt_dec (maxErrorCount (params cb))
                              (Z.of_nat (length (errors cb)) + 1));
          [by left; right|]. right. intros [?|?]; [done|lia]. }
      destruct Hdec as [Hm|Hm].
      * destruct (Hyes Hm) as [-> _]. repeat split; auto; discriminate.
      * destruct (Hno Hm) as [-> _]. auto.
    + destruct Hfields as (_ & _ & -> & _). auto.
  - exists 430003, demoParams, demoCache, "backend"%string.
    eexists _, _. split; [vm_compute; reflexivity|]. split; [reflexivity|].
    split; [vm_compute; reflexivity|reflexivity].
  - exists 400010, demoParams, demoCache, "backend"%string.
    eexists _, _. split; [vm_compute; reflexivity|]. split; [reflexivity|].
    split; [vm_compute; reflexivity|reflexivity].
  - exists 7, demoParams,
      ({[ "backend"%string :=
            set_successCount 5
              (enter_halfopen (newCircuitBreaker "backend" demoParams)) ]}
       : gmap string CircuitBreaker),
      "backend"%string.
    eexists _, _. split; [vm_compute; reflexivity|]. split; [reflexivity|].
    split; [vm_compute; reflexivity|reflexivity].
Qed.

Lemma update_only_opens_witness :
  let cb := default (newCircuitBreaker "backend" demoParams)
                    (demoCache !! "backend"%string) in
  exists cb',
    (updateCircuitBreaker 400003 "e5" demoFailure demoCache).1 !! "backend"%string
    = Some cb' /\
    (status cb' = status cb \/ status cb' = open) /\
    (status cb' = closed -> status cb = closed) /\
    (status cb' = halfopen -> status cb = halfopen).
Proof.
  intros cb.
  apply (proj1 update_only_opens 400003 "e5"%string demoFailure demoCache
               "backend"%string cb).
  vm_compute; reflexivity.
Defined.

(** ** Strings *)

Section Strings.

Local Open Scope char_scope.

Lemma sapp_nil_l (s : string) : "" +:+ s = s.
Proof. reflexivity. Qed.

Lemma sapp_cons c (s t : string) : String c s +:+ t = String c (s +:+ t).
Proof. reflexivity. Qed.

Lemma sapp_nil_r (s : string) : s +:+ "" = s.
Proof. induction s as [|c s IH]; [done|]. by rewrite sapp_cons, IH. Qed.

Lemma sapp_assoc (s t u : string) : (s +:+ t) +:+ u = s +:+ t +:+ u.
Proof. induction s as [|c s IH]; [done|]. by rewrite !sapp_cons, IH. Qed.

Lemma sapp_not_empty_r (s t : string) : t <> ""%string -> s +:+ t <> ""%string.
Proof. destruct s; [done|]. by rewrite sapp_cons. Qed.

(** *** Character classes *)

Lemma space_is_plain c :
  Ascii.is_space c = true ->
  Ascii.eqb c "-" = false /\ Ascii.eqb c "," = false /\
  Ascii.eqb c "[" = false /\ Ascii.eqb c "]" = false.
Proof. destruct c as [[] [] [] [] [] [] [] []]; cbn; intros; done. Qed.

Lemma digit_is_plain c :
  is_Some (Ascii.is_nat c) ->
  Ascii.eqb c "-" = false /\ Ascii.eqb c "," = false /\
  Ascii.eqb c "[" = false /\ Ascii.eqb c "]" = false /\
  Ascii.is_space c = false.
Proof.
  intros [d Hd]. revert Hd.
  destruct c as [[] [] [] [] [] [] [] []]; cbn; intros; done.
Qed.

Lemma plain_char c :
  Ascii.is_space c = true \/ is_Some (Ascii.is_nat c) ->
  Ascii.eqb c "-" = false /\ Ascii.eqb c "," = false /\
  Ascii.eqb c "[" = false /\ Ascii.eqb c "]" = false.
Proof.
  intros [H|H]; [by apply space_is_plain|].
  destruct (digit_is_plain c H) as (? & ? & ? & ? & _). auto.
Qed.

Lemma plain_app s t : plain s -> plain t -> plain (s +:+ t).
Proof.
  induction 1 as [|c s Hc Hs IH]; intros Ht; [done|].
  rewrite sapp_cons. constructor; auto.
Qed.

Lemma blank_plain w : blank w -> plain w.
Proof. induction 1; constructor; auto. Qed.

Lemma blank_app v w : blank v -> blank w -> blank (v +:+ w).
Proof.
  induction 1; intros Hw; [done|]. rewrite sapp_cons. constructor; auto.
Qed.

Lemma numeral_plain s n : numeral s n -> plain s.
Proof.
  induction 1 as [c d Hc|s n c d Hs IH Hc].
  - constructor; [right; eauto|constructor].
  - apply plain_app; [done|]. constructor; [right; eauto|constructor].
Qed.

(** A numeral begins with a digit. *)
Lemma numeral_head s n :
  numeral s n -> exists c s', s = String c s' /\ Ascii.is_space c = false.
Proof.
  induction 1 as [c d Hc|s n c d Hs (c0 & s' & -> & Hc0) Hc].
  - exists c, ""%string. split; [done|]. apply digit_is_plain. eauto.
  - exists c0, (s' +:+ String c ""). by rewrite sapp_cons.
Qed.

Lemma numeral_not_empty s n : numeral s n -> s <> ""%string.
Proof. intros (c & s' & -> & _)%numeral_head. done. Qed.

(** *** [includes] and [removeBrackets] *)

Lemma includes_app c s t :
  JSString.includes c (s +:+ t) = JSString.includes c s || JSString.includes c t.
Proof.
  induction s as [|c' s IH]; [done|].
  rewrite sapp_cons. cbn [JSString.includes]. by rewrite IH, orb_assoc.
Qed.

Lemma plain_no_hyphen s : plain s -> JSString.includes "-" s = false.
Proof.
  induction 1 as [|c s Hc Hs IH]; [done|].
  cbn [JSString.includes]. destruct (plain_char c Hc) as (-> & _). by rewrite IH.
Qed.

Lemma plain_no_comma s : plain s -> JSString.includes "," s = false.
Proof.
  induction 1 as [|c s Hc Hs IH]; [done|].
  cbn [JSString.includes]. destruct (plain_char c Hc) as (_ & -> & _). by rewrite IH.
Qed.

Lemma removeBrackets_app s t :
  JSString.removeBrackets (s +:+ t)
  = JSString.removeBrackets s +:+ JSString.removeBrackets t.
Proof.
  induction s as [|c s IH]; [done|].
  rewrite sapp_cons. cbn [JSString.removeBrackets].
  destruct (_ || _); [done|]. by rewrite sapp_cons, IH.
Qed.

Lemma removeBrackets_plain s : plain s -> JSString.removeBrackets s = s.
Proof.
  induction 1 as [|c s Hc Hs IH]; [done|].
  cbn [JSString.removeBrackets].
  destruct (plain_char c Hc) as (_ & _ & -> & ->). by rewrite IH.
Qed.

(** *** [split] *)

Lemma split_not_nil sep s : JSString.split sep s <> [].
Proof.
  induction s as [|c s IH]; [done|]. cbn [JSString.split].
  destruct (Ascii.eqb c sep); [done|]. by destruct (JSString.split sep s).
Qed.

(** Splitting behind a prefix that has no separator. *)
Lemma split_app sep s t :
  JSString.includes sep s = false ->
  JSString.split sep (s +:+ t)
  = match JSString.split sep t with
    | x :: xs => (s +:+ x) :: xs
    | [] => [s]
    end.
Proof.
  induction s as [|c s IH]; intros Hs.
  - rewrite sapp_nil_l. destruct (JSString.split sep t) eqn:Ht; [|done].
    by destruct (split_not_nil sep t).
  - cbn [JSString.includes] in Hs. apply orb_false_iff in Hs as [Hc Hs].
    rewrite sapp_cons. cbn [JSString.split]. rewrite Hc, (IH Hs).
    destruct (JSString.split sep t) eqn:Ht; [|done].
    by destruct (split_not_nil sep t).
Qed.

Lemma split_no_separator sep s :
  JSString.includes sep s = false -> JSString.split sep s = [s].
Proof.
  intros Hs. rewrite <- (sapp_nil_r s) at 1.
  rewrite split_app by done. cbn. by rewrite sapp_nil_r.
Qed.

(** *** [trim] *)

Lemma trimStart_blank_app w s :
  blank w -> JSString.trimStart (w +:+ s) = JSString.trimStart s.
Proof.
  induction 1 as [|c w Hc Hw IH]; [done|].
  rewrite sapp_cons. cbn [JSString.trimStart]. by rewrite Hc.
Qed.

Lemma trimEnd_blank w : blank w -> JSString.trimEnd w = ""%string.
Proof.
  induction 1 as [|c w Hc Hw IH]; [done|].
  cbn [JSString.trimEnd]. by rewrite IH, Hc.
Qed.

(** Trimming the end behind a prefix, when something remains of the rest. *)
Lemma trimEnd_app_solid s t u :
  JSString.trimEnd t = u /\ u <> ""%string ->
  JSString.trimEnd (s +:+ t) = s +:+ u /\ s +:+ u <> ""%string.
Proof.
  intros [Ht Hu]. split; [|by apply sapp_not_empty_r].
  induction s as [|c s IH]; [done|].
  rewrite !sapp_cons. cbn [JSString.trimEnd]. rewrite IH.
  destruct (s +:+ u) eqn:Hsu; [|done].
  by destruct (sapp_not_empty_r s u Hu).
Qed.

Lemma trimEnd_app_blank s w :
  blank w -> JSString.trimEnd (s +:+ w) = JSString.trimEnd s.
Proof.
  intros Hw. induction s as [|c s IH].
  - rewrite sapp_nil_l. by apply trimEnd_blank.
  - rewrite sapp_cons. cbn [JSString.trimEnd]. by rewrite IH.
Qed.

Lemma trimStart_numeral s n t :
  numeral s n -> JSString.trimStart (s +:+ t) = s +:+ t.
Proof.
  intros (c & s' & -> & Hc)%numeral_head.
  rewrite sapp_cons. cbn [JSString.trimStart]. by rewrite Hc.
Qed.

Lemma trimEnd_numeral s n :
  numeral s n -> JSString.trimEnd s = s /\ s <> ""%string.
Proof.
  intros Hs. split; [|by eapply numeral_not_empty].
  destruct Hs as [c d Hc|s n c d Hs Hc].
  - cbn. by destruct (digit_is_plain c (mk_is_Some _ _ Hc)) as (_ & _ & _ & _ & ->).
  - apply trimEnd_app_solid. split; [|done].
    cbn. by destruct (digit_is_plain c (mk_is_Some _ _ Hc)) as (_ & _ & _ & _ & ->).
Qed.

(** A numeral with white space on both sides trims to the numeral. *)
Lemma trim_padded_numeral v s n w :
  blank v -> numeral s n -> blank w -> JSString.trim (v +:+ s +:+ w) = s.
Proof.
  intros Hv Hs Hw. unfold JSString.trim.
  rewrite trimStart_blank_app by done.
  rewrite (trimStart_numeral s n) by done.
  rewrite trimEnd_app_blank by done.
  by apply (trimEnd_numeral s n).
Qed.

Lemma trim_numeral s n : numeral s n -> JSString.trim s = s.
Proof.
  intros Hs.
  rewrite <- (trim_padded_numeral "" s n "" blank_nil Hs blank_nil) at 2.
  by rewrite sapp_nil_l, sapp_nil_r.
Qed.

(** *** [ToNumber] *)

Lemma decimal_app acc s t :
  JSString.decimal acc (s +:+ t)
  = match JSString.decimal acc s with
    | Some v => JSString.decimal v t
    | None => None
    end.
Proof.
  revert acc. induction s as [|c s IH]; intros acc; [done|].
  rewrite sapp_cons. cbn [JSString.decimal].
  destruct (Ascii.is_nat c); [apply IH|done].
Qed.

Lemma decimal_numeral s n : numeral s n -> JSString.decimal 0 s = Some n.
Proof.
  induction 1 as [c d Hc|s n c d Hs IH Hc].
  - cbn [JSString.decimal]. rewrite Hc. cbn [JSString.decimal]. f_equal; lia.
  - rewrite decimal_app, IH. cbn [JSString.decimal]. by rewrite Hc.
Qed.

Lemma ToNumber_numeral s n : numeral s n -> JSString.ToNumber s = Some n.
Proof.
  intros Hs. unfold JSString.ToNumber.
  rewrite (trim_numeral s n) by done. by apply decimal_numeral.
Qed.

End Strings.

(** ** The error classifier *)

Section Classifier.

(** An integer field matches on numeric equality. *)
Lemma matchFields_exact code n field rest :
  token_text (Exact n) field ->
  matchFields code (field :: rest) = (code =? n) || matchFields code rest.
Proof.
  inversion 1 as [w1 s n' w2 Hw1 Hs Hw2|]; subst.
  cbn [matchFields].
  rewrite (trim_padded_numeral w1 s n w2) by done.
  rewrite (plain_no_hyphen s) by (by eapply numeral_plain).
  unfold JSString.eq. rewrite (ToNumber_numeral s n) by done.
  by destruct (code =? n).
Qed.

(** What [trim] leaves of a range field: the outer white space goes, and so
    does white space before the lower bound or after the upper bound when no
    bracket shields it. *)
Lemma range_text_trim w1 lb w2 slo lo w3 w4 shi hi w5 rb w6 :
  blank w1 -> opening lb -> blank w2 -> numeral slo lo -> blank w3 ->
  blank w4 -> numeral shi hi -> blank w5 -> closing rb -> blank w6 ->
  exists a b,
    blank a /\ blank b /\
    JSString.trim
      (w1 +:+ lb +:+ w2 +:+ slo +:+ w3 +:+ "-" +:+ w4 +:+ shi +:+ w5 +:+ rb +:+ w6)
    = lb +:+ a +:+ slo +:+ w3 +:+ "-" +:+ w4 +:+ shi +:+ b +:+ rb.
Proof.
  intros Hw1 Hlb Hw2 Hslo Hw3 Hw4 Hshi Hw5 Hrb Hw6.
  unfold JSString.trim. rewrite trimStart_blank_app by done.
  set (tail := shi +:+ w5 +:+ rb +:+ w6).
  assert (Hstart : exists a, blank a /\
            JSString.trimStart (lb +:+ w2 +:+ slo +:+ w3 +:+ "-" +:+ w4 +:+ tail)
            = lb +:+ a +:+ slo +:+ w3 +:+ "-" +:+ w4 +:+ tail).
  { destruct Hlb.
    - exists ""%string. split; [constructor|].
      rewrite !sapp_nil_l, trimStart_blank_app by done.
      by apply (trimStart_numeral slo lo).
    - exists w2. split; [done|]. reflexivity. }
  assert (Hend : exists b, blank b /\
            JSString.trimEnd tail = shi +:+ b +:+ rb /\
            shi +:+ b +:+ rb <> ""%string).
  { subst tail. destruct Hrb.
    - exists ""%string. split; [constructor|].
      rewrite !sapp_nil_l, sapp_nil_r.
      rewrite trimEnd_app_blank by (by apply blank_app).
      by apply (trimEnd_numeral shi hi).
    - exists w5. split; [done|].
      do 2 apply trimEnd_app_solid. split; [|done].
      rewrite sapp_cons, sapp_nil_l. cbn [JSString.trimEnd].
      by rewrite trimEnd_blank. }
  destruct Hstart as (a & Ha & ->), Hend as (b & Hb & Hend).
  exists a, b. split; [done|]. split; [done|].
  by do 6 apply trimEnd_app_solid.
Qed.

(** A range field matches when the code lies between its bounds. *)
Lemma matchFields_range code lo hi field rest :
  token_text (Range lo hi) field ->
  matchFields code (field :: rest)
  = (lo <=? code) && (code <=? hi) || matchFields code rest.
Proof.
  inversion 1 as [|w1 lb w2 slo lo' w3 w4 shi hi' w5 rb w6
                   Hw1 Hlb Hw2 Hslo Hw3 Hw4 Hshi Hw5 Hrb Hw6]; subst.
  destruct (range_text_trim w1 lb w2 slo lo w3 w4 shi hi w5 rb w6)
    as (a & b & Ha & Hb & Htrim); try done.
  cbn [matchFields]. rewrite Htrim.
  assert (Hhyphen :
            JSString.includes "-"
              (lb +:+ a +:+ slo +:+ w3 +:+ "-" +:+ w4 +:+ shi +:+ b +:+ rb) = true).
  { rewrite (includes_app _ lb), (includes_app _ a), (includes_app _ slo),
      (includes_app _ w3), (includes_app _ "-").
    change (JSString.includes "-" "-") with true.
    by rewrite orb_true_l, !orb_true_r. }
  rewrite Hhyphen.
  assert (Hstrip :
            JSString.removeBrackets
              (lb +:+ a +:+ slo +:+ w3 +:+ "-" +:+ w4 +:+ shi +:+ b +:+ rb)
            = a +:+ slo +:+ w3 +:+ "-" +:+ w4 +:+ shi +:+ b).
  { rewrite !removeBrackets_app.
    rewrite (removeBrackets_plain a), (removeBrackets_plain slo),
      (removeBrackets_plain w3), (removeBrackets_plain w4),
      (removeBrackets_plain shi), (removeBrackets_plain b)
      by eauto using blank_plain, numeral_plain.
    replace (JSString.removeBrackets lb) with ""%string by (by destruct Hlb).
    replace (JSString.removeBrackets rb) with ""%string by (by destruct Hrb).
    change (JSString.removeBrackets "-") with "-"%string.
    by rewrite sapp_nil_l, sapp_nil_r. }
  rewrite Hstrip.
  assert (Hsplit :
            JSString.split "-" (a +:+ slo +:+ w3 +:+ "-" +:+ w4 +:+ shi +:+ b)
            = [a +:+ slo +:+ w3; w4 +:+ shi +:+ b]).
  { rewrite (split_app _ a), (split_app _ slo), (split_app _ w3)
      by eauto using plain_no_hyphen, blank_plain, numeral_plain.
    rewrite sapp_cons, sapp_nil_l. cbn [JSString.split].
    change (Ascii.eqb "-" "-") with true. cbv iota.
    rewrite split_no_separator
      by eauto 10 using plain_no_hyphen, plain_app, blank_plain, numeral_plain.
    by rewrite sapp_nil_r. }
  rewrite Hsplit.
  rewrite (trim_padded_numeral a slo lo w3), (trim_padded_numeral w4 shi hi b)
    by done.
  unfold JSString.ge, JSString.le.
  rewrite (ToNumber_numeral slo lo), (ToNumber_numeral shi hi) by done.
  by destruct (_ && _).
Qed.

Lemma matchFields_token code t field rest :
  token_text t field ->
  matchFields code (field :: rest) = token_matches code t || matchFields code rest.
Proof.
  destruct t; [apply matchFields_exact|apply matchFields_range].
Qed.

(** No field has a comma inside. *)
Lemma token_text_no_comma t field :
  token_text t field -> JSString.includes "," field = false.
Proof.
  destruct 1 as [w1 s n w2 Hw1 Hs Hw2
                |w1 lb w2 slo lo w3 w4 shi hi w5 rb w6
                   Hw1 Hlb Hw2 Hslo Hw3 Hw4 Hshi Hw5 Hrb Hw6];
    rewrite !includes_app.
  - by rewrite (plain_no_comma w1), (plain_no_comma s), (plain_no_comma w2)
      by eauto using blank_plain, numeral_plain.
  - rewrite (plain_no_comma w1), (plain_no_comma w2), (plain_no_comma w3),
      (plain_no_comma w4), (plain_no_comma w5), (plain_no_comma w6),
      (plain_no_comma slo), (plain_no_comma shi)
      by eauto using blank_plain, numeral_plain.
    by destruct Hlb, Hrb.
Qed.

(** The loop over a well-formed specification is the search for a matching
    token. *)
Lemma parseReturnCodes_spec_text toks errorCodes code :
  spec_text toks errorCodes ->
  parseReturnCodes errorCodes code = existsb (token_matches code) toks.
Proof.
  unfold parseReturnCodes.
  induction 1 as [t s Ht|t s ts r Ht Hts IH].
  - rewrite split_no_separator by (by eapply token_text_no_comma).
    rewrite (matchFields_token code t) by done. done.
  - rewrite split_app by (by eapply token_text_no_comma).
    rewrite sapp_cons, sapp_nil_l. cbn [JSString.split].
    change (Ascii.eqb "," ",") with true. cbv iota.
    destruct (JSString.split "," r) eqn:Hr; [by destruct (split_not_nil "," r)|].
    rewrite sapp_nil_r, (matchFields_token code t) by done.
    cbn [existsb]. by rewrite IH.
Qed.

End Classifier.

(** ** The classification cache along a run *)

(** What an update that passes validation does to the cache of the stored
    breaker: it adds the classifier's answer for the code, which is the
    remembered answer if there is one and the parsed one otherwise. *)
Lemma updateCircuitBreaker_cache now errorId given id code cb cache :
  JS.truthy_string (upd_circuitBreakerId given) = Some id ->
  JS.truthy_number (upd_httpResponseCode given) = Some code ->
  cache !! id = Some cb ->
  exists cb' isError,
    (updateCircuitBreaker now errorId given cache).1 = <[id := cb']> cache /\
    params cb' = params cb /\
    errorCodeMap cb' = <[code := isError]> (errorCodeMap cb) /\
    (errorCodeMap cb !! code = Some isError \/
     errorCodeMap cb !! code = None /\
     isError = parseReturnCodes (returnCodes (params cb)) code).
Proof.
  intros Hid Hcode Hcb.
  destruct (updateCircuitBreaker_stored now errorId given id code cb cache
              Hid Hcode Hcb)
    as (isError & cb1 & how & cb' & Hcl & -> & Hmap & Hpar & _).
  destruct (_isReturnCodeAnError_defined cb code)
    as (isError' & cb1' & how' & Hcl' & _ & _ & _ & _ & _ & _ & _ & Hcase).
  rewrite Hcl in Hcl'. simplify_eq.
  exists cb', isError'. repeat split; [done..|].
  destruct Hcase as [(? & _)|(? & _ & ?)]; auto.
Qed.

(** The stored breakers after an update, whatever its parameters. *)
Lemma updateCircuitBreaker_lookup now errorId given cache id cb :
  cache !! id = Some cb ->
  (updateCircuitBreaker now errorId given cache).1 !! id = Some cb \/
  exists code isError cb',
    (updateCircuitBreaker now errorId given cache).1 !! id = Some cb' /\
    params cb' = params cb /\
    errorCodeMap cb' = <[code := isError]> (errorCodeMap cb) /\
    (errorCodeMap cb !! code = Some isError \/
     errorCodeMap cb !! code = None /\
     isError = parseReturnCodes (returnCodes (params cb)) code).
Proof.
  intros Hcb.
  destruct (JS.truthy_string (upd_circuitBreakerId given)) as [id0|] eqn:Hid;
    [|left; unfold updateCircuitBreaker; by rewrite Hid].
  destruct (JS.truthy_number (upd_httpResponseCode given)) as [code|] eqn:Hcode;
    [|left; unfold updateCircuitBreaker; by rewrite Hid, Hcode].
  destruct (cache !! id0) as [cb0|] eqn:Hcb0;
    [|left; unfold updateCircuitBreaker; by rewrite Hid, Hcode, Hcb0].
  destruct (updateCircuitBreaker_cache now errorId given id0 code cb0 cache
              Hid Hcode Hcb0) as (cb' & isError & -> & Hpar & Hmap & Hcase).
  destruct (decide (id0 = id)) as [->|Hne].
  - right. simplify_eq. exists code, isError, cb'.
    by rewrite lookup_insert_eq.
  - left. by rewrite lookup_insert_ne.
Qed.

(** The stored breakers after a check: the one checked keeps its frame, a
    created one starts with an empty cache, the others are untouched. *)
Lemma configCheckCircuitBreaker_lookup now given cache id cb' :
  (configCheckCircuitBreaker now given cache).1 !! id = Some cb' ->
  (exists cb, cache !! id = Some cb /\ same_frame cb cb') \/
  (cache !! id = None /\ same_frame (newCircuitBreaker id given) cb').
Proof.
  destruct (JS.truthy_string (given_circuitBreakerId given)) as [id0|] eqn:Hid.
  - destruct (configCheckCircuitBreaker_frame now given id0 cache Hid)
      as (cb0 & -> & Hframe).
    destruct (decide (id0 = id)) as [->|Hne].
    + rewrite lookup_insert_eq. intros [= <-].
      destruct (cache !! id) as [cb|]; [left|right]; eauto.
    + rewrite lookup_insert_ne by done. intros Hcb'. left.
      exists cb'. by unfold same_frame.
  - unfold configCheckCircuitBreaker. rewrite Hid. cbn [fst].
    intros Hcb'. left. exists cb'. by unfold same_frame.
Qed.

Lemma configCheckCircuitBreaker_keeps now given cache id cb :
  cache !! id = Some cb ->
  exists cb',
    (configCheckCircuitBreaker now given cache).1 !! id = Some cb' /\
    same_frame cb cb'.
Proof.
  intros Hcb.
  destruct (JS.truthy_string (given_circuitBreakerId given)) as [id0|] eqn:Hid.
  - destruct (configCheckCircuitBreaker_frame now given id0 cache Hid)
      as (cb0 & -> & Hframe).
    destruct (decide (id0 = id)) as [->|Hne].
    + rewrite lookup_insert_eq, Hcb in *. eauto.
    + rewrite lookup_insert_ne by done. exists cb. by unfold same_frame.
  - unfold configCheckCircuitBreaker. rewrite Hid. cbn [fst].
    exists cb. by unfold same_frame.
Qed.

(** Soundness of the remembered classifications is an invariant. *)
Lemma invoke_cache_sound c cache :
  (forall id cb, cache !! id = Some cb -> cache_sound cb) ->
  forall id cb, (invoke c cache).1 !! id = Some cb -> cache_sound cb.
Proof.
  intros Hsound id cb'. destruct c as [now given|now errorId given]; cbn [invoke].
  - intros [(cb & Hcb & Hpar & Hmap & _)|(_ & Hpar & Hmap & _)]%configCheckCircuitBreaker_lookup;
      intros code cached; rewrite Hpar, Hmap.
    + by apply (Hsound id cb).
    + cbn. by rewrite lookup_empty.
  - intros Hcb'.
    assert (Hstored : exists cb, cache !! id = Some cb).
    { destruct (cache !! id) as [cb|] eqn:Hcb; [eauto|]. exfalso.
      revert Hcb'.
      destruct (JS.truthy_string (upd_circuitBreakerId given)) as [id0|] eqn:Hid;
        [|unfold updateCircuitBreaker; rewrite Hid; cbn [fst]; congruence].
      destruct (JS.truthy_number (upd_httpResponseCode given)) as [code|] eqn:Hcode;
        [|unfold updateCircuitBreaker; rewrite Hid, Hcode; cbn [fst]; congruence].
      destruct (cache !! id0) as [cb0|] eqn:Hcb0;
        [|unfold updateCircuitBreaker; rewrite Hid, Hcode, Hcb0; cbn;
          congruence].
      destruct (updateCircuitBreaker_cache now errorId given id0 code cb0 cache
                  Hid Hcode Hcb0) as (cb0' & ? & -> & _).
      destruct (decide (id0 = id)) as [->|]; [congruence|].
      rewrite lookup_insert_ne by done. congruence. }
    destruct Hstored as [cb Hcb].
    destruct (updateCircuitBreaker_lookup now errorId given cache id cb Hcb)
      as [Hsame|(code & isError & cb2 & Hcb2 & Hpar & Hmap & Hcase)].
    + rewrite Hsame in Hcb'. simplify_eq. by apply (Hsound id).
    + rewrite Hcb2 in Hcb'. simplify_eq.
      intros code' cached. rewrite Hpar, Hmap.
      destruct (decide (code = code')) as [->|Hne].
      * rewrite lookup_insert_eq. intros [= <-].
        destruct Hcase as [Hhit|[_ ->]]; [|done].
        by apply (Hsound id cb).
      * rewrite lookup_insert_ne by done. by apply (Hsound id cb).
Qed.

Lemma run_cache_sound calls cache :
  (forall id cb, cache !! id = Some cb -> cache_sound cb) ->
  forall id cb, run calls cache !! id = Some cb -> cache_sound cb.
Proof.
  revert cache. induction calls as [|c calls IH]; intros cache Hsound; [done|].
  cbn [run]. apply IH. by apply invoke_cache_sound.
Qed.

Lemma reachable_cache_sound cache id cb :
  reachable cache -> cache !! id = Some cb -> cache_sound cb.
Proof.
  intros [calls ->]. apply run_cache_sound.
  intros ? ?. by rewrite lookup_empty.
Qed.

(** A remembered classification stays, and so does the specification. *)
Lemma invoke_keeps_classification c cache id cb code cached :
  cache !! id = Some cb ->
  errorCodeMap cb !! code = Some cached ->
  exists cb',
    (invoke c cache).1 !! id = Some cb' /\
    errorCodeMap cb' !! code = Some cached /\
    params cb' = params cb.
Proof.
  intros Hcb Hcached. destruct c as [now given|now errorId given]; cbn [invoke].
  - destruct (configCheckCircuitBreaker_keeps now given cache id cb Hcb)
      as (cb' & Hcb' & Hpar & Hmap & _).
    exists cb'. by rewrite Hmap.
  - destruct (updateCircuitBreaker_lookup now errorId given cache id cb Hcb)
      as [Hsame|(code' & isError & cb' & Hcb' & Hpar & Hmap & Hcase)]; [eauto|].
    exists cb'. split; [done|]. split; [|done]. rewrite Hmap.
    destruct (decide (code' = code)) as [->|Hne];
      [|by rewrite lookup_insert_ne].
    rewrite lookup_insert_eq.
    destruct Hcase as [?|[? _]]; congruence.
Qed.

Lemma run_keeps_classification calls cache id cb code cached :
  cache !! id = Some cb ->
  errorCodeMap cb !! code = Some cached ->
  exists cb',
    run calls cache !! id = Some cb' /\
    errorCodeMap cb' !! code = Some cached /\
    params cb' = params cb.
Proof.
  revert cache cb.
  induction calls as [|c calls IH]; intros cache cb Hcb Hcached; [eauto|].
  destruct (invoke_keeps_classification c cache id cb code cached Hcb Hcached)
    as (cb1 & Hcb1 & Hcached1 & Hpar1).
  destruct (IH _ _ Hcb1 Hcached1) as (cb' & ? & ? & Hpar').
  exists cb'. cbn [run]. rewrite Hpar', Hpar1. done.
Qed.

(** The text ["[300-500], 999"] reads as a range and a single code. *)
Lemma combined_spec_text :
  spec_text [Range 300 500; Exact 999] "[300-500], 999".
Proof.
  assert (H3 : numeral "300" 300).
  { apply (numeral_snoc "30" 30 "0" 0%nat); [|done].
    apply (numeral_snoc "3" 3 "0" 0%nat); [|done].
    by apply (numeral_digit "3" 3%nat). }
  assert (H5 : numeral "500" 500).
  { apply (numeral_snoc "50" 50 "0" 0%nat); [|done].
    apply (numeral_snoc "5" 5 "0" 0%nat); [|done].
    by apply (numeral_digit "5" 5%nat). }
  assert (H9 : numeral "999" 999).
  { apply (numeral_snoc "99" 99 "9" 9%nat); [|done].
    apply (numeral_snoc "9" 9 "9" 9%nat); [|done].
    by apply (numeral_digit "9" 9%nat). }
  apply (spec_more (Range 300 500) "[300-500]" [Exact 999] " 999").
  - apply (text_range "" "[" "" "300" 300 "" "" "500" 500 "" "]" "");
      by repeat constructor.
  - apply spec_last.
    apply (text_exact " " "999" 999 ""); by repeat constructor.
Qed.

(** C6 (counterexample).  The one-token specification ["-5"] is an integer
    literal of value [-5], yet it classifies the code [3] as an error: the
    token contains a hyphen and is read as the range from [0] to [5]. *)
Lemma negative_token_is_read_as_range : ~ integer_tokens_match_by_equality.
Proof.
  intros Hclaim.
  assert (Hfive : numeral "5" 5) by (by apply (numeral_digit "5" 5%nat)).
  specialize (Hclaim "-5"%string (-5) 3 (literal_negative "5" 5 Hfive)).
  assert (Hexact : exact_number (-5)) by (by vm_compute).
  specialize (Hclaim Hexact).
  vm_compute in Hclaim. discriminate.
Qed.

(** C6 (amended).  For a breaker whose [returnCodes] is a comma-separated
    list of unsigned decimal integer tokens and [lo-hi] range tokens with
    unsigned decimal bounds (brackets optional), no numeral above [2^53], the
    classifier answers [true] exactly when some token matches the code: a
    range when [lo <= code <= hi], an integer when it equals the code; no
    match gives [false].  For ["[300-500], 999"]: 600 is no error, 307 and
    999 are errors. *)
Theorem classification_follows_specification :
  (forall cache id cb toks code,
      reachable cache ->
      cache !! id = Some cb ->
      spec_text toks (returnCodes (params cb)) ->
      Forall exact_token toks ->
      exists cb1 how,
        _isReturnCodeAnError (Some cb) (Some code)
        = inr (existsb (token_matches code) toks, Some cb1, how)) /\
  (forall toks errorCodes code,
      spec_text toks errorCodes ->
      Forall exact_token toks ->
      parseReturnCodes errorCodes code = existsb (token_matches code) toks) /\
  spec_text [Range 300 500; Exact 999] "[300-500], 999" /\
  Forall exact_token [Range 300 500; Exact 999] /\
  parseReturnCodes "[300-500], 999" 600 = false /\
  parseReturnCodes "[300-500], 999" 307 = true /\
  parseReturnCodes "[300-500], 999" 999 = true.
Proof.
  split; [|split; [|split; [|split; [|by vm_compute]]]].
  - intros cache id cb toks code Hreach Hcb Htext _.
    pose proof (reachable_cache_sound cache id cb Hreach Hcb) as Hsound.
    destruct (_isReturnCodeAnError_defined cb code)
      as (isError & cb1 & how & -> & _ & _ & _ & _ & _ & _ & _ & Hcase).
    exists cb1, how. do 3 f_equal.
    rewrite <- (parseReturnCodes_spec_text toks _ code Htext).
    destruct Hcase as [(Hhit & _)|(_ & _ & ->)]; [|done].
    by apply Hsound.
  - intros toks errorCodes code Htext _. by apply parseReturnCodes_spec_text.
  - exact combined_spec_text.
  - repeat constructor; by vm_compute.
Qed.

(** The breaker of [combinedCache] has already classified 307; it answers
    for 307 and for 600 as its two tokens say. *)
Lemma classification_follows_specification_witness :
  let cb := default (newCircuitBreaker "combined" combinedParams)
                    (combinedCache !! "combined"%string) in
  (exists cb1 how,
      _isReturnCodeAnError (Some cb) (Some 307)
      = inr (existsb (token_matches 307) [Range 300 500; Exact 999], Some cb1, how)) /\
  (exists cb1 how,
      _isReturnCodeAnError (Some cb) (Some 600)
      = inr (existsb (token_matches 600) [Range 300 500; Exact 999], Some cb1, how)).
Proof.
  intros cb.
  assert (Hreach : reachable combinedCache) by (by exists combinedCalls).
  assert (Hcb : combinedCache !! "combined"%string = Some cb)
    by (vm_compute; reflexivity).
  assert (Htext : spec_text [Range 300 500; Exact 999] (returnCodes (params cb)))
    by exact (proj1 (proj2 (proj2 classification_follows_specification))).
  assert (Hexact : Forall exact_token [Range 300 500; Exact 999])
    by exact (proj1 (proj2 (proj2 (proj2 classification_follows_specification)))).
  split.
  - exact (proj1 classification_follows_specification
             combinedCache "combined"%string cb _ 307 Hreach Hcb Htext Hexact).
  - exact (proj1 classification_follows_specification
             combinedCache "combined"%string cb _ 600 Hreach Hcb Htext Hexact).
Defined.

(** C7.  For a fixed breaker, the first classification of a code stores its
    answer, found or not, in [errorCodeMap] before returning; a remembered
    answer is returned as it is, without parsing the specification and
    without writing; and after the first classification every later one, in
    whatever state a run of checks and updates has left the breaker, is
    answered from the cache with the same boolean.  So the specification is
    parsed at most once for each code. *)
Theorem classification_is_remembered cb code :
  exists first cb1 how,
    _isReturnCodeAnError (Some cb) (Some code) = inr (first, Some cb1, how) /\
    errorCodeMap cb1 !! code = Some first /\
    (forall cached,
        errorCodeMap cb !! code = Some cached ->
        first = cached /\ how = CacheHit /\ cb1 = cb) /\
    (errorCodeMap cb !! code = None ->
     how = Parsed /\ first = parseReturnCodes (returnCodes (params cb)) code) /\
    _isReturnCodeAnError (Some cb1) (Some code) = inr (first, Some cb1, CacheHit) /\
    (forall calls cache id,
        cache !! id = Some cb1 ->
        exists cb2,
          run calls cache !! id = Some cb2 /\
          returnCodes (params cb2) = returnCodes (params cb) /\
          _isReturnCodeAnError (Some cb2) (Some code)
          = inr (first, Some cb2, CacheHit)).
Proof.
  destruct (_isReturnCodeAnError_defined cb code)
    as (first & cb1 & how & Hcl & Hmap & _ & _ & _ & _ & Hpar & _ & Hcase).
  exists first, cb1, how.
  assert (Hstored : errorCodeMap cb1 !! code = Some first)
    by (by rewrite Hmap, lookup_insert_eq).
  assert (Hhit : forall cb2,
             errorCodeMap cb2 !! code = Some first ->
             _isReturnCodeAnError (Some cb2) (Some code)
             = inr (first, Some cb2, CacheHit)).
  { intros cb2 H2. unfold _isReturnCodeAnError. by rewrite H2. }
  split; [done|]. split; [done|]. split; [|split; [|split]].
  - intros cached Hcached.
    destruct Hcase as [(? & ? & ?)|(? & _)]; [|congruence].
    split; [congruence|done].
  - intros Hnone. destruct Hcase as [(? & _)|(_ & ? & ?)]; [congruence|done].
  - by apply Hhit.
  - intros calls cache id Hcb1.
    destruct (run_keeps_classification calls cache id cb1 code first Hcb1 Hstored)
      as (cb2 & Hcb2 & Hkept & Hpar2).
    exists cb2. split; [done|]. split; [by rewrite Hpar2, Hpar|]. by apply Hhit.
Qed.

(** The first classification of 600 by the breaker of [combinedCache], and
    the ones that follow a later check and a later update. *)
Lemma classification_is_remembered_witness :
  let cb := default (newCircuitBreaker "combined" combinedParams)
                    (combinedCache !! "combined"%string) in
  exists first cb1 how,
    _isReturnCodeAnError (Some cb) (Some 600) = inr (first, Some cb1, how) /\
    errorCodeMap cb1 !! 600 = Some first /\
    (forall cached,
        errorCodeMap cb !! 600 = Some cached ->
        first = cached /\ how = CacheHit /\ cb1 = cb) /\
    (errorCodeMap cb !! 600 = None ->
     how = Parsed /\ first = parseReturnCodes (returnCodes (params cb)) 600) /\
    _isReturnCodeAnError (Some cb1) (Some 600) = inr (first, Some cb1, CacheHit) /\
    (forall calls cache id,
        cache !! id = Some cb1 ->
        exists cb2,
          run calls cache !! id = Some cb2 /\
          returnCodes (params cb2) = returnCodes (params cb) /\
          _isReturnCodeAnError (Some cb2) (Some 600)
          = inr (first, Some cb2, CacheHit)).
Proof.
  intros cb. exact (classification_is_remembered cb 600).
Defined.

(** * Further properties of the actions *)

(** ** The six ways of a check *)

Lemma _handleOpenStatus_recovered now cb :
  opened_before cb (now - recoverPeriod (params cb) * 1000) = true ->
  _handleOpenStatus now cb ApiBuilderLogger
  = (set_output out_next (enter_halfopen cb),
     if halfOpenSuccesses (params cb) <=? 0
     then Throw (TypeError "debug") else Return).
Proof.
  intros Hrec. unfold _handleOpenStatus.
  change (opened_before (set_output out_open cb)
            (now - recoverPeriod (params (set_output out_open cb)) * 1000))
    with (opened_before cb (now - recoverPeriod (params cb) * 1000)).
  rewrite Hrec, _handleHalfopenStatus_unlogged. cbn.
  by destruct (halfOpenSuccesses (params cb) <=? 0).
Qed.

(** Every check with a usable identifier stores one record under it; the
    record and the completion are one of six, by the status found. *)
Lemma configCheckCircuitBreaker_cases now given id cache :
  JS.truthy_string (given_circuitBreakerId given) = Some id ->
  let cb := default (newCircuitBreaker id given) (cache !! id) in
  let kept := window_prefix now cb (errors cb) in
  exists cb' completion,
    configCheckCircuitBreaker now given cache
    = (<[id := cb']> cache,
       match completion with
       | Return => Returned (output cb') cb'
       | Throw e => Threw e
       end) /\
    ((status cb = closed /\ completion = Return /\
      cb' = set_output out_next cb) \/
     (status cb = halfopen /\
      halfOpenSuccesses (params cb) <= successCount cb /\
      completion = Return /\
      cb' = set_errors [] (set_output out_next (set_status closed cb))) \/
     (status cb = halfopen /\
      successCount cb < halfOpenSuccesses (params cb) /\
      completion = Return /\
      cb' = set_output (parity_route cb) cb) \/
     (status cb = open /\
      opened_before cb (now - recoverPeriod (params cb) * 1000) = true /\
      completion = (if halfOpenSuccesses (params cb) <=? 0
                    then Throw (TypeError "debug") else Return) /\
      cb' = set_output out_next (enter_halfopen cb)) \/
     (status cb = open /\
      opened_before cb (now - recoverPeriod (params cb) * 1000) = false /\
      Z.of_nat (length kept) < maxErrorCount (params cb) /\
      completion = Return /\
      cb' = set_output out_next
              (set_status closed (set_errors kept (set_output out_open cb)))) \/
     (status cb = open /\
      opened_before cb (now - recoverPeriod (params cb) * 1000) = false /\
      maxErrorCount (params cb) <= Z.of_nat (length kept) /\
      completion = Return /\
      cb' = set_errors kept (set_output out_open cb))).
Proof.
  intros Hid cb kept. unfold configCheckCircuitBreaker. rewrite Hid.
  replace (match cache !! id with
           | Some cb0 => cb0
           | None => newCircuitBreaker id given
           end) with cb by (subst cb; by destruct (cache !! id)).
  destruct (status cb) eqn:Hst.
  - eexists _, Return. split; [reflexivity|]. left. auto.
  - destruct (opened_before cb (now - recoverPeriod (params cb) * 1000)) eqn:Hrec.
    + rewrite (_handleOpenStatus_recovered now cb Hrec).
      exists (set_output out_next (enter_halfopen cb)),
        (if halfOpenSuccesses (params cb) <=? 0
         then Throw (TypeError "debug") else Return).
      split; [by destruct (halfOpenSuccesses (params cb) <=? 0)|].
      do 3 right. left. auto.
    + rewrite (_handleOpenStatus_waiting now cb Hrec). fold kept.
      destruct (Z.ltb_spec (Z.of_nat (length kept)) (maxErrorCount (params cb))).
      * eexists _, Return. split; [reflexivity|]. do 4 right. left. auto.
      * eexists _, Return. split; [reflexivity|]. do 5 right. auto.
  - rewrite _handleHalfopenStatus_logged.
    destruct (Z.leb_spec (halfOpenSuccesses (params cb)) (successCount cb)).
    + eexists _, Return. split; [reflexivity|]. right. left. auto.
    + eexists _, Return. split; [reflexivity|]. do 2 right. left. auto.
Qed.

(** ** What a check does to the checked breaker *)

(** X1.  A check of an open breaker whose recovery period has not elapsed
    cuts the error list at its first expired entry: what is kept is a prefix
    of the old list, holds no expired entry, and is empty as soon as the
    oldest entry has expired.  The breaker then closes with route next if
    fewer than [maxErrorCount] entries are kept, and stays open with route
    open otherwise. *)
Theorem open_check_cuts_at_first_expired now given id cb cache :
  JS.truthy_string (given_circuitBreakerId given) = Some id ->
  cache !! id = Some cb ->
  status cb = open ->
  opened_before cb (now - recoverPeriod (params cb) * 1000) = false ->
  exists cb',
    configCheckCircuitBreaker now given cache
    = (<[id := cb']> cache, Returned (output cb') cb') /\
    errors cb' = window_prefix now cb (errors cb) /\
    errors cb' `prefix_of` errors cb /\
    (forall e, e ∈ errors cb' ->
               now - timeRange (params cb) * 1000 <= timestamp e) /\
    (forall e rest,
        errors cb = e :: rest ->
        timestamp e < now - timeRange (params cb) * 1000 ->
        errors cb' = []) /\
    (Z.of_nat (length (errors cb')) < maxErrorCount (params cb) /\
     status cb' = closed /\ output cb' = out_next \/
     maxErrorCount (params cb) <= Z.of_nat (length (errors cb')) /\
     status cb' = open /\ output cb' = out_open).
Proof.
  intros Hid Hcb Hst Hwait.
  destruct (configCheckCircuitBreaker_cases now given id cache Hid)
    as (cb' & completion & Heq & Hcases).
  rewrite Hcb in Hcases. cbn [default from_option Datatypes.id] in Hcases.
  assert (Hshape : completion = Return /\
            errors cb' = window_prefix now cb (errors cb) /\
            (Z.of_nat (length (errors cb')) < maxErrorCount (params cb) /\
             status cb' = closed /\ output cb' = out_next \/
             maxErrorCount (params cb) <= Z.of_nat (length (errors cb')) /\
             status cb' = open /\ output cb' = out_open)).
  { destruct Hcases as [(? & _)|[(? & _)|[(? & _)|[(_ & ? & _)|[H|H]]]]];
      try congruence.
    - destruct H as (_ & _ & Hlt & -> & ->). cbn.
      split; [done|]. split; [done|]. by left.
    - destruct H as (_ & _ & Hge & -> & ->). cbn.
      split; [done|]. split; [done|]. by right. }
  destruct Hshape as (-> & Herr & Hstatus).
  exists cb'. split; [done|]. split; [done|]. rewrite Herr.
  split; [apply window_prefix_is_prefix|]. split; [|split; [|by rewrite <- Herr]].
  - intros e He%window_prefix_all_inside. unfold in_window in He.
    by apply Z.leb_le in He.
  - intros e rest -> Hold. cbn [window_prefix]. unfold in_window.
    destruct (Z.leb_spec (now - timeRange (params cb) * 1000) (timestamp e));
      [lia|done].
Qed.

Lemma open_check_cuts_at_first_expired_witness :
  let cb := default (newCircuitBreaker "backend" demoParams)
                    (demoCache !! "backend"%string) in
  exists cb',
    configCheckCircuitBreaker 400010 demoParams demoCache
    = (<["backend"%string := cb']> demoCache, Returned (output cb') cb') /\
    errors cb' = window_prefix 400010 cb (errors cb) /\
    errors cb' `prefix_of` errors cb /\
    (forall e, e ∈ errors cb' ->
               400010 - timeRange (params cb) * 1000 <= timestamp e) /\
    (forall e rest,
        errors cb = e :: rest ->
        timestamp e < 400010 - timeRange (params cb) * 1000 ->
        errors cb' = []) /\
    (Z.of_nat (length (errors cb')) < maxErrorCount (params cb) /\
     status cb' = closed /\ output cb' = out_next \/
     maxErrorCount (params cb) <= Z.of_nat (length (errors cb')) /\
     status cb' = open /\ output cb' = out_open).
Proof.
  intros cb.
  apply (open_check_cuts_at_first_expired 400010 demoParams "backend"%string
           cb demoCache).
  - reflexivity.
  - vm_compute; reflexivity.
  - reflexivity.
  - reflexivity.
Defined.

(** X2.  When the recovery period of an open breaker has elapsed and
    [halfOpenSuccesses] is zero or negative, the check throws a [TypeError]
    (the half-open handler is entered without the logger): the flow is
    routed to error and the breaker is left half-open with
    [successCount = 0].  The check after that one, whenever it is made,
    closes the breaker and empties its error list. *)
Theorem recovery_without_logger_throws now given id cb t cache :
  JS.truthy_string (given_circuitBreakerId given) = Some id ->
  cache !! id = Some cb ->
  status cb = open ->
  openedTimestamp cb = Some t ->
  recoverPeriod (params cb) * 1000 < now - t ->
  halfOpenSuccesses (params cb) <= 0 ->
  let probing := set_output out_next (enter_halfopen cb) in
  let closing := set_errors [] (set_output out_next (set_status closed probing)) in
  configCheckCircuitBreaker now given cache
  = (<[id := probing]> cache, Threw (TypeError "debug")) /\
  status probing = halfopen /\
  successCount probing = 0 /\
  forall later,
    configCheckCircuitBreaker later given (<[id := probing]> cache)
    = (<[id := closing]> cache, Returned out_next closing).
Proof.
  intros Hid Hcb Hst Ht Hlate Hneg probing closing.
  split; [|split; [done|split; [done|]]].
  - unfold configCheckCircuitBreaker. rewrite Hid, Hcb, Hst.
    rewrite _handleOpenStatus_recovered.
    + destruct (Z.leb_spec (halfOpenSuccesses (params cb)) 0); [done|lia].
    + unfold opened_before. rewrite Ht. apply Z.ltb_lt. lia.
  - intros later. unfold configCheckCircuitBreaker.
    rewrite Hid, lookup_insert_eq.
    cbn [status probing set_output enter_halfopen set_successCount set_status].
    rewrite _handleHalfopenStatus_logged. cbn.
    destruct (Z.leb_spec (halfOpenSuccesses (params cb)) 0); [|lia].
    by rewrite insert_insert_eq.
Qed.

Lemma recovery_without_logger_throws_witness :
  let cb :=
    set_openedTimestamp 100
      (set_status open
         (newCircuitBreaker "backend"
            {| given_circuitBreakerId := Some "backend"%string;
               given_maxErrorCount := None; given_timeRange := None;
               given_halfOpenSuccesses := Some 0; given_recoverPeriod := None;
               given_communicationError := None; given_returnCodes := None;
               given_maxResponseTime := None |})) in
  let cache : gmap string CircuitBreaker := {[ "backend"%string := cb ]} in
  let probing := set_output out_next (enter_halfopen cb) in
  let closing := set_errors [] (set_output out_next (set_status closed probing)) in
  configCheckCircuitBreaker 40000 demoParams cache
  = (<["backend"%string := probing]> cache, Threw (TypeError "debug")) /\
  status probing = halfopen /\
  successCount probing = 0 /\
  forall later,
    configCheckCircuitBreaker later demoParams (<["backend"%string := probing]> cache)
    = (<["backend"%string := closing]> cache, Returned out_next closing).
Proof.
  intros cb cache.
  apply (recovery_without_logger_throws 40000 demoParams "backend"%string cb 100 cache).
  - reflexivity.
  - vm_compute; reflexivity.
  - reflexivity.
  - reflexivity.
  - vm_compute; reflexivity.
  - vm_compute; discriminate.
Defined.

(** X3.  Whenever a check returns, the value is the record now stored under
    the identifier and the route is read off that record: next for a closed
    breaker, open for an open one, and for a half-open one next or open by
    the parity of its [successCount]. *)
Theorem check_route_follows_state now given cache route value :
  (configCheckCircuitBreaker now given cache).2 = Returned route value ->
  exists id,
    JS.truthy_string (given_circuitBreakerId given) = Some id /\
    (configCheckCircuitBreaker now given cache).1 !! id = Some value /\
    route = output value /\
    route = match status value with
            | closed => out_next
            | open => out_open
            | halfopen => parity_route value
            end.
Proof.
  destruct (JS.truthy_string (given_circuitBreakerId given)) as [id|] eqn:Hid;
    [|unfold configCheckCircuitBreaker; by rewrite Hid].
  destruct (configCheckCircuitBreaker_cases now given id cache Hid)
    as (cb' & completion & -> & Hcases).
  cbn [fst snd]. intros Hret. exists id. split; [done|].
  rewrite lookup_insert_eq.
  destruct completion as [|e]; [|done]. simplify_eq.
  split; [done|]. split; [done|].
  set (cb := default (newCircuitBreaker id given) (cache !! id)) in *.
  destruct Hcases
    as [(Hs & _ & ->)|[(Hs & _ & _ & ->)|[(Hs & _ & _ & ->)
       |[(Hs & _ & _ & ->)|[(Hs & _ & _ & _ & ->)|(Hs & _ & _ & _ & ->)]]]]];
    cbn; rewrite ?Hs; done.
Qed.

Lemma check_route_follows_state_witness :
  exists route value id,
    JS.truthy_string (given_circuitBreakerId demoParams) = Some id /\
    (configCheckCircuitBreaker 400004 demoParams demoCache).1 !! id = Some value /\
    route = output value /\
    route = match status value with
            | closed => out_next
            | open => out_open
            | halfopen => parity_route value
            end.
Proof.
  eexists _, _.
  apply (check_route_follows_state 400004 demoParams demoCache).
  vm_compute. reflexivity.
Defined.

(** X4.  What a check never does.  Whatever its parameters, for every stored
    breaker it leaves [params], [errorCodeMap] and [openedTimestamp] as they
    are, adds no error (the new error list is a prefix of the old one), never
    moves the breaker to open, and leaves [successCount] alone or resets it
    to [0]. *)
Theorem check_never_opens now given cache id cb :
  cache !! id = Some cb ->
  exists cb',
    (configCheckCircuitBreaker now given cache).1 !! id = Some cb' /\
    params cb' = params cb /\
    errorCodeMap cb' = errorCodeMap cb /\
    openedTimestamp cb' = openedTimestamp cb /\
    errors cb' `prefix_of` errors cb /\
    (status cb' = open -> status cb = open) /\
    (successCount cb' = successCount cb \/ successCount cb' = 0).
Proof.
  intros Hcb.
  assert (Hsame : exists cb', Some cb = Some cb' /\
            params cb' = params cb /\ errorCodeMap cb' = errorCodeMap cb /\
            openedTimestamp cb' = openedTimestamp cb /\
            errors cb' `prefix_of` errors cb /\
            (status cb' = open -> status cb = open) /\
            (successCount cb' = successCount cb \/ successCount cb' = 0)).
  { exists cb. repeat split; auto. }
  destruct (JS.truthy_string (given_circuitBreakerId given)) as [id0|] eqn:Hid;
    [|unfold configCheckCircuitBreaker; rewrite Hid; cbn [fst]; by rewrite Hcb].
  destruct (configCheckCircuitBreaker_cases now given id0 cache Hid)
    as (cb' & completion & -> & Hcases).
  cbn [fst].
  destruct (decide (id0 = id)) as [->|Hne];
    [|rewrite lookup_insert_ne by done; by rewrite Hcb].
  rewrite lookup_insert_eq. rewrite Hcb in Hcases. cbn [default from_option Datatypes.id] in Hcases.
  exists cb'. split; [done|].
  destruct Hcases as [(_ & _ & ->)|[(_ & _ & _ & ->)|[(_ & _ & _ & ->)|[(? & _ & _ & ->)|[H|H]]]]];
    cbn; try (repeat split; auto using prefix_nil; done).
  - destruct H as (_ & _ & _ & _ & ->). cbn.
    repeat split; auto using window_prefix_is_prefix. done.
  - destruct H as (? & _ & _ & _ & ->). cbn.
    repeat split; auto using window_prefix_is_prefix.
Qed.

Lemma check_never_opens_witness :
  let cb := default (newCircuitBreaker "backend" demoParams)
                    (demoCache !! "backend"%string) in
  exists cb',
    (configCheckCircuitBreaker 430003 demoParams demoCache).1 !! "backend"%string
    = Some cb' /\
    params cb' = params cb /\
    errorCodeMap cb' = errorCodeMap cb /\
    openedTimestamp cb' = openedTimestamp cb /\
    errors cb' `prefix_of` errors cb /\
    (status cb' = open -> status cb = open) /\
    (successCount cb' = successCount cb \/ successCount cb' = 0).
Proof.
  intros cb.
  apply (check_never_opens 430003 demoParams demoCache "backend"%string cb).
  vm_compute; reflexivity.
Defined.

(** ** The store *)

Lemma updateCircuitBreaker_dom now errorId given cache :
  dom (updateCircuitBreaker now errorId given cache).1 = dom cache.
Proof.
  destruct (JS.truthy_string (upd_circuitBreakerId given)) as [id|] eqn:Hid;
    [|unfold updateCircuitBreaker; by rewrite Hid].
  destruct (JS.truthy_number (upd_httpResponseCode given)) as [code|] eqn:Hcode;
    [|unfold updateCircuitBreaker; by rewrite Hid, Hcode].
  destruct (cache !! id) as [cb|] eqn:Hcb;
    [|unfold updateCircuitBreaker; by rewrite Hid, Hcode, Hcb].
  destruct (updateCircuitBreaker_cache now errorId given id code cb cache
              Hid Hcode Hcb) as (cb' & ? & -> & _).
  rewrite dom_insert_L.
  assert (Hin : id ∈ dom cache) by (apply elem_of_dom; eauto).
  apply subseteq_union_1_L. by apply singleton_subseteq_l.
Qed.

Lemma configCheckCircuitBreaker_dom now given cache :
  dom (configCheckCircuitBreaker now given cache).1
  = match JS.truthy_string (given_circuitBreakerId given) with
    | Some id => {[ id ]} ∪ dom cache
    | None => dom cache
    end.
Proof.
  destruct (JS.truthy_string (given_circuitBreakerId given)) as [id|] eqn:Hid;
    [|unfold configCheckCircuitBreaker; by rewrite Hid].
  destruct (configCheckCircuitBreaker_frame now given id cache Hid)
    as (cb' & -> & _).
  by rewrite dom_insert_L.
Qed.

(** X5.  An invocation concerns one identifier only: every breaker stored
    under another identifier is left exactly as it is.  No invocation removes
    an entry from the store; an update never adds one, and a check adds at
    most the entry of its own identifier (which it always has afterwards,
    when the identifier is usable). *)
Theorem calls_touch_one_identifier c cache :
  (forall id,
      call_identifier c <> Some id ->
      (invoke c cache).1 !! id = cache !! id) /\
  dom cache ⊆ dom (invoke c cache).1 /\
  (forall now errorId given,
      c = CallUpdate now errorId given ->
      dom (invoke c cache).1 = dom cache) /\
  (forall now given,
      c = CallCheck now given ->
      dom (invoke c cache).1
      = match JS.truthy_string (given_circuitBreakerId given) with
        | Some id => {[ id ]} ∪ dom cache
        | None => dom cache
        end).
Proof.
  split; [|split; [|split]].
  - intros id Hother. destruct c as [now given|now errorId given]; cbn in *.
    + destruct (JS.truthy_string (given_circuitBreakerId given)) as [id0|] eqn:Hid;
        [|unfold configCheckCircuitBreaker; by rewrite Hid].
      destruct (configCheckCircuitBreaker_frame now given id0 cache Hid)
        as (cb' & -> & _).
      apply truthy_string_Some in Hid as [Hid _].
      rewrite lookup_insert_ne; [done|congruence].
    + destruct (JS.truthy_string (upd_circuitBreakerId given)) as [id0|] eqn:Hid;
        [|unfold updateCircuitBreaker; by rewrite Hid].
      destruct (JS.truthy_number (upd_httpResponseCode given)) as [code|] eqn:Hcode;
        [|unfold updateCircuitBreaker; by rewrite Hid, Hcode].
      destruct (cache !! id0) as [cb|] eqn:Hcb;
        [|unfold updateCircuitBreaker; by rewrite Hid, Hcode, Hcb].
      destruct (updateCircuitBreaker_cache now errorId given id0 code cb cache
                  Hid Hcode Hcb) as (cb' & ? & -> & _).
      apply truthy_string_Some in Hid as [Hid _].
      rewrite lookup_insert_ne; [done|congruence].
  - destruct c as [now given|now errorId given]; cbn [invoke].
    + rewrite configCheckCircuitBreaker_dom. case_match; set_solver.
    + by rewrite updateCircuitBreaker_dom.
  - intros now errorId given ->. apply updateCircuitBreaker_dom.
  - intros now given ->. apply configCheckCircuitBreaker_dom.
Qed.

Lemma calls_touch_one_identifier_witness :
  (configCheckCircuitBreaker 400010 demoParams combinedCache).1 !! "combined"%string
  = combinedCache !! "combined"%string.
Proof.
  apply (proj1 (calls_touch_one_identifier (CallCheck 400010 demoParams) combinedCache)
               "combined"%string).
  vm_compute. discriminate.
Defined.

(** X6.  After a check with a usable identifier, an update for that
    identifier with a response code other than [0] always returns with route
    next, whatever the check did (it may even have thrown): the breaker it
    needs is stored. *)
Theorem update_after_check_returns now given cache later errorId id code :
  JS.truthy_string (given_circuitBreakerId given) = Some id ->
  code <> 0 ->
  exists value,
    updateCircuitBreaker later errorId (response id code)
      (configCheckCircuitBreaker now given cache).1
    = (<[id := value]> (configCheckCircuitBreaker now given cache).1,
       Returned out_next value).
Proof.
  intros Hid Hcode.
  destruct (configCheckCircuitBreaker_frame now given id cache Hid)
    as (cb' & Hstore & _).
  apply truthy_string_Some in Hid as [_ Hne].
  destruct (updateCircuitBreaker_stored later errorId (response id code) id code cb'
              (configCheckCircuitBreaker now given cache).1)
    as (? & ? & ? & value & _ & Heq & _).
  - apply truthy_string_Some. done.
  - apply truthy_number_Some. done.
  - rewrite Hstore. apply lookup_insert_eq.
  - eauto.
Qed.

Lemma update_after_check_returns_witness :
  exists value,
    updateCircuitBreaker 20 "e" (response "backend" 503)
      (configCheckCircuitBreaker 10 demoParams ∅).1
    = (<["backend"%string := value]> (configCheckCircuitBreaker 10 demoParams ∅).1,
       Returned out_next value).
Proof.
  apply (update_after_check_returns 10 demoParams ∅ 20 "e"%string "backend"%string 503).
  - reflexivity.
  - lia.
Defined.

(** ** Invariants of the store *)

Lemma newCircuitBreaker_invariants id given :
  threshold_invariant (newCircuitBreaker id given) /\
  shape_invariant id (newCircuitBreaker id given).
Proof.
  unfold threshold_invariant, shape_invariant. cbn.
  repeat split; try done; lia.
Qed.

Lemma parity_route_not_error cb : parity_route cb <> out_error.
Proof. unfold parity_route. by destruct (Z.even _). Qed.

Lemma configCheckCircuitBreaker_invariants now given cache :
  (forall id cb, cache !! id = Some cb ->
                 threshold_invariant cb /\ shape_invariant id cb) ->
  forall id cb,
    (configCheckCircuitBreaker now given cache).1 !! id = Some cb ->
    threshold_invariant cb /\ shape_invariant id cb.
Proof.
  intros Hinv id cb'.
  destruct (JS.truthy_string (given_circuitBreakerId given)) as [id0|] eqn:Hid;
    [|unfold configCheckCircuitBreaker; rewrite Hid; apply Hinv].
  destruct (configCheckCircuitBreaker_cases now given id0 cache Hid)
    as (cb1 & completion & -> & Hcases).
  cbn [fst].
  destruct (decide (id0 = id)) as [->|Hne];
    [|rewrite lookup_insert_ne by done; apply Hinv].
  rewrite lookup_insert_eq. intros [= <-].
  set (cb := default (newCircuitBreaker id given) (cache !! id)) in *.
  assert (Hcb : threshold_invariant cb /\ shape_invariant id cb).
  { subst cb. destruct (cache !! id) as [cb|] eqn:Hlook; cbn.
    - by apply Hinv.
    - apply newCircuitBreaker_invariants. }
  clearbody cb.
  destruct Hcb as [[Hopen Hclosed] (Hname & Hsc & Hout & Hts)].
  pose proof (parity_route_not_error cb) as Hpar.
  unfold threshold_invariant, shape_invariant.
  destruct Hcases
    as [(Hs & _ & ->)|[(Hs & _ & _ & ->)|[(Hs & _ & _ & ->)
       |[(Hs & _ & _ & ->)|[(Hs & _ & Hlen & _ & ->)|(Hs & _ & Hlen & _ & ->)]]]]];
    cbn; rewrite ?Hs in *;
    repeat split; try done; try lia; auto.
  all: try (intros; apply Hopen; congruence).
  all: try (intros; apply Hts; congruence).
Qed.

Lemma updateCircuitBreaker_invariants now errorId given cache :
  (forall id cb, cache !! id = Some cb ->
                 threshold_invariant cb /\ shape_invariant id cb) ->
  forall id cb,
    (updateCircuitBreaker now errorId given cache).1 !! id = Some cb ->
    threshold_invariant cb /\ shape_invariant id cb.
Proof.
  intros Hinv id cb'.
  destruct (JS.truthy_string (upd_circuitBreakerId given)) as [id0|] eqn:Hid;
    [|unfold updateCircuitBreaker; rewrite Hid; apply Hinv].
  destruct (JS.truthy_number (upd_httpResponseCode given)) as [code|] eqn:Hcode;
    [|unfold updateCircuitBreaker; rewrite Hid, Hcode; apply Hinv].
  destruct (cache !! id0) as [cb|] eqn:Hcb;
    [|unfold updateCircuitBreaker; rewrite Hid, Hcode, Hcb; apply Hinv].
  destruct (updateCircuitBreaker_stored now errorId given id0 code cb cache
              Hid Hcode Hcb)
    as (isError & cb1 & how & cb2 & _ & -> & _ & Hpar & Hout & Hfields).
  cbn [fst].
  destruct (decide (id0 = id)) as [->|Hne];
    [|rewrite lookup_insert_ne by done; apply Hinv].
  rewrite lookup_insert_eq. intros [= <-].
  destruct (Hinv id cb Hcb) as [[Hopen Hclosed] (Hname & Hsc & Hnoerr & Hts)].
  unfold threshold_invariant, shape_invariant. rewrite Hpar, Hout.
  destruct isError.
  - destruct Hfields as (Herr & Hsame & Hyes & Hno).
    rewrite Herr, Hsame, length_app. cbn [length].
    assert (Hdec : must_open cb \/ ~ must_open cb).
    { unfold must_open.
      destruct (decide (status cb = halfopen)); [by left; left|].
      destruct (Z_le_gt_dec (maxErrorCount (params cb))
                            (Z.of_nat (length (errors cb)) + 1));
        [by left; right|]. right. intros [?|?]; [done|lia]. }
    destruct Hdec as [Hm|Hm].
    + destruct (Hyes Hm) as [-> ->].
      repeat split; try done.
      intros _. destruct Hm as [Hhalf|Hmax]; [|lia].
      assert (status cb <> closed) by congruence.
      specialize (Hopen ltac:(done)). lia.
    + destruct (Hno Hm) as [-> ->].
      assert (Hlt : Z.of_nat (length (errors cb)) + 1 < maxErrorCount (params cb)).
      { unfold must_open in Hm.
        destruct (Z_le_gt_dec (maxErrorCount (params cb))
                              (Z.of_nat (length (errors cb)) + 1)); [|lia].
        exfalso. apply Hm. by right. }
      repeat split; try done.
      * intros Hst. specialize (Hopen Hst). lia.
      * intros. lia.
  - destruct Hfields as (-> & -> & -> & ->).
    repeat split; try done. lia.
Qed.

Lemma run_invariants calls cache :
  (forall id cb, cache !! id = Some cb ->
                 threshold_invariant cb /\ shape_invariant id cb) ->
  forall id cb,
    run calls cache !! id = Some cb ->
    threshold_invariant cb /\ shape_invariant id cb.
Proof.
  revert cache. induction calls as [|c calls IH]; intros cache Hinv; [done|].
  cbn [run]. apply IH.
  destruct c; cbn [invoke];
    [by apply configCheckCircuitBreaker_invariants
    |by apply updateCircuitBreaker_invariants].
Qed.

(** X7.  In every cache the plugin can be in, an open or half-open breaker
    holds at least [maxErrorCount] errors, and a closed breaker with a
    positive [maxErrorCount] holds fewer: with a positive threshold a breaker
    is closed exactly when its error list is below the threshold. *)
Theorem status_tracks_error_count cache id cb :
  reachable cache ->
  cache !! id = Some cb ->
  (status cb <> closed ->
   maxErrorCount (params cb) <= Z.of_nat (length (errors cb))) /\
  (0 < maxErrorCount (params cb) ->
   (status cb = closed <->
    Z.of_nat (length (errors cb)) < maxErrorCount (params cb))).
Proof.
  intros [calls ->] Hcb.
  destruct (run_invariants calls ∅) with (id := id) (cb := cb)
    as [[Hopen Hclosed] _]; [intros ? ?; by rewrite lookup_empty|done|].
  split; [done|]. intros Hpos. split; [by apply Hclosed|].
  intros Hlt. destruct (decide (status cb = closed)) as [|Hne]; [done|].
  specialize (Hopen Hne). lia.
Qed.

Lemma status_tracks_error_count_witness :
  let cb := default (newCircuitBreaker "backend" demoParams)
                    (demoCache !! "backend"%string) in
  (status cb <> closed ->
   maxErrorCount (params cb) <= Z.of_nat (length (errors cb))) /\
  (0 < maxErrorCount (params cb) ->
   (status cb = closed <->
    Z.of_nat (length (errors cb)) < maxErrorCount (params cb))).
Proof.
  intros cb.
  apply (status_tracks_error_count demoCache "backend"%string cb).
  - by exists demoCalls.
  - vm_compute; reflexivity.
Defined.

(** X8.  In every cache the plugin can be in, each breaker carries in
    [params.circuitBreakerId] the identifier it is stored under, has a
    [successCount] that is not negative, an [output] that is next or open,
    and, unless it is closed, a defined [openedTimestamp]. *)
Theorem stored_breakers_are_well_formed cache id cb :
  reachable cache ->
  cache !! id = Some cb ->
  circuitBreakerId (params cb) = id /\
  0 <= successCount cb /\
  (output cb = out_next \/ output cb = out_open) /\
  (status cb <> closed -> exists t, openedTimestamp cb = Some t).
Proof.
  intros [calls ->] Hcb.
  destruct (run_invariants calls ∅) with (id := id) (cb := cb)
    as [_ (Hname & Hsc & Hout & Hts)]; [intros ? ?; by rewrite lookup_empty|done|].
  repeat split; try done.
  destruct (output cb); auto. done.
Qed.

Lemma stored_breakers_are_well_formed_witness :
  let cb := default (newCircuitBreaker "backend" demoParams)
                    (demoCache !! "backend"%string) in
  circuitBreakerId (params cb) = "backend"%string /\
  0 <= successCount cb /\
  (output cb = out_next \/ output cb = out_open) /\
  (status cb <> closed -> exists t, openedTimestamp cb = Some t).
Proof.
  intros cb.
  apply (stored_breakers_are_well_formed demoCache "backend"%string cb).
  - by exists demoCalls.
  - vm_compute; reflexivity.
Defined.

(** X9.  In every cache the plugin can be in, an error recorded for a
    breaker that is open or half-open leaves it open and moves
    [openedTimestamp] to the time of that update, the time the appended
    event is stamped with: each failure reported while the breaker is open
    restarts its recovery period. *)
Theorem error_while_open_restarts_recovery now errorId given cache id code cb
        cb1 how :
  reachable cache ->
  JS.truthy_string (upd_circuitBreakerId given) = Some id ->
  JS.truthy_number (upd_httpResponseCode given) = Some code ->
  cache !! id = Some cb ->
  status cb <> closed ->
  _isReturnCodeAnError (Some cb) (Some code) = inr (true, cb1, how) ->
  exists cb' event,
    updateCircuitBreaker now errorId given cache
    = (<[id := cb']> cache, Returned out_next cb') /\
    status cb' = open /\
    openedTimestamp cb' = Some now /\
    errors cb' = errors cb ++ [event] /\
    timestamp event = now /\
    error event = errorId.
Proof.
  intros [calls ->] Hid Hcode Hcb Hst Hclass.
  destruct (run_invariants calls ∅) with (id := id) (cb := cb)
    as [[Hopen _] _]; [intros ? ?; by rewrite lookup_empty|done|].
  destruct (updateCircuitBreaker_stored now errorId given id code cb _
              Hid Hcode Hcb)
    as (isError & cb2 & how2 & cb' & Hclass2 & Heq & _ & _ & _ & Hfields).
  rewrite Hclass in Hclass2. simplify_eq.
  destruct Hfields as (Herr & _ & Hyes & _).
  exists cb', (errorEvent now errorId code). split; [done|].
  destruct Hyes as [-> ->]; [|done].
  right. specialize (Hopen Hst). lia.
Qed.

Lemma error_while_open_restarts_recovery_witness :
  let cb := default (newCircuitBreaker "backend" demoParams)
                    (demoCache !! "backend"%string) in
  exists cb' event,
    updateCircuitBreaker 400500 "e5" demoFailure demoCache
    = (<["backend"%string := cb']> demoCache, Returned out_next cb') /\
    status cb' = open /\
    openedTimestamp cb' = Some 400500 /\
    errors cb' = errors cb ++ [event] /\
    timestamp event = 400500 /\
    error event = "e5"%string.
Proof.
  intros cb.
  apply (error_while_open_restarts_recovery 400500 "e5"%string demoFailure demoCache
           "backend"%string 500 cb (Some cb) CacheHit).
  - by exists demoCalls.
  - reflexivity.
  - reflexivity.
  - vm_compute; reflexivity.
  - vm_compute; discriminate.
  - vm_compute; reflexivity.
Defined.

(** ** Probing a half-open breaker *)

(** One update with a code that the breaker's specification does not list. *)
Lemma updateCircuitBreaker_success now errorId id code cb cache :
  id <> EmptyString ->
  code <> 0 ->
  cache !! id = Some cb ->
  cache_sound cb ->
  parseReturnCodes (returnCodes (params cb)) code = false ->
  exists cb',
    updateCircuitBreaker now errorId (response id code) cache
    = (<[id := cb']> cache, Returned out_next cb') /\
    status cb' = status cb /\
    successCount cb' = successCount cb + 1 /\
    errors cb' = errors cb /\
    params cb' = params cb /\
    cache_sound cb'.
Proof.
  intros Hid Hcode Hcb Hsound Hparse.
  destruct (updateCircuitBreaker_stored now errorId (response id code) id code
              cb cache)
    as (isError & cb1 & how & cb' & Hclass & Heq & Hmap & Hpar & _ & Hfields);
    [by apply truthy_string_Some|by apply truthy_number_Some|done|].
  destruct (_isReturnCodeAnError_defined cb code)
    as (isError' & cb1' & how' & Hclass' & _ & _ & _ & _ & _ & _ & _ & Hcase).
  rewrite Hclass in Hclass'. simplify_eq.
  assert (isError' = false) as ->.
  { destruct Hcase as [(Hhit & _)|(_ & _ & ->)]; [|done].
    rewrite <- Hparse. by apply Hsound. }
  destruct Hfields as (Hsc & Herr & Hst & _).
  exists cb'. repeat split; try done.
  intros code' cached. rewrite Hmap, Hpar.
  destruct (decide (code = code')) as [->|Hne].
  - rewrite lookup_insert_eq. congruence.
  - rewrite lookup_insert_ne by done. apply Hsound.
Qed.

Lemma updates_success id (l : list (Z * string * Z)) :
  id <> EmptyString ->
  forall cb cache,
    cache !! id = Some cb ->
    cache_sound cb ->
    Forall (fun '(_, _, code) =>
              code <> 0 /\
              parseReturnCodes (returnCodes (params cb)) code = false) l ->
    exists cb',
      run (updates id l) cache !! id = Some cb' /\
      status cb' = status cb /\
      successCount cb' = successCount cb + Z.of_nat (length l) /\
      errors cb' = errors cb /\
      params cb' = params cb.
Proof.
  intros Hid. induction l as [|[[now errorId] code] l IH];
    intros cb cache Hcb Hsound Hall.
  - exists cb. cbn. repeat split; try done. lia.
  - apply Forall_cons in Hall as [[Hcode Hparse] Hall].
    destruct (updateCircuitBreaker_success now errorId id code cb cache)
      as (cb1 & Heq & Hst1 & Hsc1 & Herr1 & Hpar1 & Hsound1); try done.
    destruct (IH cb1 (<[id := cb1]> cache)) as (cb' & Hrun & Hst & Hsc & Herr & Hpar).
    + apply lookup_insert_eq.
    + done.
    + by rewrite Hpar1.
    + exists cb'. cbn [updates map run invoke]. rewrite Heq. cbn [fst].
      split; [done|]. rewrite Hst, Hsc, Herr, Hpar, Hst1, Hsc1, Herr1, Hpar1.
      repeat split; try done. cbn [length]. lia.
Qed.

(** X10.  Probing.  Let a half-open breaker receive any number [n] of
    updates whose codes its specification does not list (and that are not
    [0]).  It is still half-open, holds the same errors, and its
    [successCount] has grown by [n].  The next check closes it, with an empty
    error list and route next, if the count has reached [halfOpenSuccesses];
    otherwise it leaves it half-open and routes next for an even count and
    open for an odd one. *)
Theorem halfopen_probing now given id cb cache (l : list (Z * string * Z)) :
  JS.truthy_string (given_circuitBreakerId given) = Some id ->
  cache !! id = Some cb ->
  status cb = halfopen ->
  cache_sound cb ->
  Forall (fun '(_, _, code) =>
            code <> 0 /\
            parseReturnCodes (returnCodes (params cb)) code = false) l ->
  let count := successCount cb + Z.of_nat (length l) in
  let probed := run (updates id l) cache in
  exists cb' route value,
    probed !! id = Some cb' /\
    status cb' = halfopen /\
    successCount cb' = count /\
    errors cb' = errors cb /\
    configCheckCircuitBreaker now given probed
    = (<[id := value]> probed, Returned route value) /\
    successCount value = count /\
    if halfOpenSuccesses (params cb) <=? count
    then route = out_next /\ status value = closed /\ errors value = []
    else route = (if Z.even count then out_next else out_open) /\
         status value = halfopen /\ errors value = errors cb.
Proof.
  intros Hid Hcb Hst Hsound Hall count probed.
  assert (Hne : id <> EmptyString) by (by apply truthy_string_Some in Hid as [_ ?]).
  destruct (updates_success id l Hne cb cache Hcb Hsound Hall)
    as (cb' & Hrun & Hst' & Hsc & Herr & Hpar).
  fold probed in Hrun. fold count in Hsc. rewrite Hst in Hst'.
  exists cb'.
  unfold configCheckCircuitBreaker. rewrite Hid, Hrun, Hst'.
  rewrite _handleHalfopenStatus_logged, Hpar, Hsc.
  destruct (halfOpenSuccesses (params cb) <=? count).
  - eexists _, _. split; [done|]. split; [done|]. split; [done|]. split; [done|].
    split; [reflexivity|]. cbn. done.
  - eexists _, _. split; [done|]. split; [done|]. split; [done|]. split; [done|].
    split; [reflexivity|]. cbn. unfold parity_route. rewrite Hsc.
    destruct (Z.even count); done.
Qed.

Lemma halfopen_probing_witness :
  let cb := enter_halfopen (newCircuitBreaker "backend" demoParams) in
  let cache : gmap string CircuitBreaker := {[ "backend"%string := cb ]} in
  let l := [(10, "a"%string, 200); (20, "b"%string, 204); (30, "c"%string, 201)] in
  let count := successCount cb + Z.of_nat (length l) in
  let probed := run (updates "backend" l) cache in
  exists cb' route value,
    probed !! "backend"%string = Some cb' /\
    status cb' = halfopen /\
    successCount cb' = count /\
    errors cb' = errors cb /\
    configCheckCircuitBreaker 40 demoParams probed
    = (<["backend"%string := value]> probed, Returned route value) /\
    successCount value = count /\
    if halfOpenSuccesses (params cb) <=? count
    then route = out_next /\ status value = closed /\ errors value = []
    else route = (if Z.even count then out_next else out_open) /\
         status value = halfopen /\ errors value = errors cb.
Proof.
  intros cb cache l.
  apply (halfopen_probing 40 demoParams "backend"%string cb cache l).
  - reflexivity.
  - vm_compute; reflexivity.
  - reflexivity.
  - intros code cached Hlook. vm_compute in Hlook. discriminate.
  - repeat constructor; (lia || (vm_compute; reflexivity)).
Defined.

(** ** Error lists in order of time *)

Lemma window_prefix_all now cb l :
  Forall (fun e => in_window now cb e = true) l -> window_prefix now cb l = l.
Proof.
  induction 1 as [|e l He Hl IH]; [done|].
  cbn [window_prefix]. by rewrite He, IH.
Qed.

(** On a list in ascending order the cut keeps everything or nothing. *)
Lemma window_prefix_ascending now cb l :
  ascending l ->
  window_prefix now cb l
  = match l with
    | [] => []
    | e :: _ => if in_window now cb e then l else []
    end.
Proof.
  destruct l as [|e rest]; [done|]. intros [Hafter _].
  cbn [window_prefix].
  destruct (in_window now cb e) eqn:He; [|done].
  f_equal. apply window_prefix_all.
  eapply Forall_impl; [exact Hafter|].
  intros x Hx. unfold in_window in *.
  apply Z.leb_le. apply Z.leb_le in He. lia.
Qed.

Lemma ascending_prefix l1 l2 : l1 `prefix_of` l2 -> ascending l2 -> ascending l1.
Proof.
  revert l2. induction l1 as [|e l1 IH]; intros l2 Hpre Hasc; [done|].
  destruct l2 as [|e2 l2]; [by apply prefix_nil_inv in Hpre|].
  apply prefix_cons_inv_1 in Hpre as Hhead.
  apply prefix_cons_inv_2 in Hpre as Htail. subst e2.
  destruct Hasc as [Hafter Hasc]. split; [|by eapply IH].
  destruct Htail as [k ->]. by apply Forall_app in Hafter as [? _].
Qed.

Lemma ascending_snoc l e :
  ascending l ->
  Forall (fun x => timestamp x <= timestamp e) l ->
  ascending (l ++ [e]).
Proof.
  induction l as [|x l IH]; intros Hasc Hall; [by repeat constructor|].
  destruct Hasc as [Hafter Hasc]. apply Forall_cons in Hall as [Hx Hall].
  cbn. split; [|by apply IH].
  apply Forall_app. split; [done|]. by repeat constructor.
Qed.

Lemma recorded_by_prefix t t' cb cb' :
  t <= t' ->
  errors cb' `prefix_of` errors cb ->
  recorded_by t cb -> recorded_by t' cb'.
Proof.
  intros Ht Hpre [Hasc Hall]. split; [by eapply ascending_prefix|].
  destruct Hpre as [k Hk]. rewrite Hk in Hall.
  apply Forall_app in Hall as [Hall _].
  eapply Forall_impl; [exact Hall|]. intros; cbn in *; lia.
Qed.

(** The error list a check leaves is a prefix of the one it found; a breaker
    it creates has none. *)
Lemma configCheckCircuitBreaker_errors now given cache id cb' :
  (configCheckCircuitBreaker now given cache).1 !! id = Some cb' ->
  (exists cb, cache !! id = Some cb /\ errors cb' `prefix_of` errors cb) \/
  errors cb' = [].
Proof.
  destruct (JS.truthy_string (given_circuitBreakerId given)) as [id0|] eqn:Hid;
    [|unfold configCheckCircuitBreaker; rewrite Hid; cbn [fst]; eauto].
  destruct (configCheckCircuitBreaker_cases now given id0 cache Hid)
    as (cb1 & completion & -> & Hcases).
  cbn [fst].
  destruct (decide (id0 = id)) as [->|Hne];
    [|rewrite lookup_insert_ne by done; eauto].
  rewrite lookup_insert_eq. intros [= <-].
  set (cb := default (newCircuitBreaker id given) (cache !! id)) in *.
  assert (Hpre : errors cb1 `prefix_of` errors cb).
  { destruct Hcases
      as [(_ & _ & ->)|[(_ & _ & _ & ->)|[(_ & _ & _ & ->)
         |[(_ & _ & _ & ->)|[(_ & _ & _ & _ & ->)|(_ & _ & _ & _ & ->)]]]]];
      cbn; auto using prefix_nil, window_prefix_is_prefix. }
  subst cb. destruct (cache !! id) as [cb|]; cbn in Hpre.
  - left. eauto.
  - right. by apply prefix_nil_inv in Hpre.
Qed.

Lemma invoke_recorded_by c t cache :
  t <= call_time c ->
  (forall id cb, cache !! id = Some cb -> recorded_by t cb) ->
  forall id cb, (invoke c cache).1 !! id = Some cb -> recorded_by (call_time c) cb.
Proof.
  intros Ht Hinv id cb'. destruct c as [now given|now errorId given];
    cbn [invoke call_time] in *.
  - intros [(cb & Hcb & Hpre)|Hnil]%configCheckCircuitBreaker_errors.
    + eapply recorded_by_prefix; [exact Ht|exact Hpre|by eapply Hinv].
    + unfold recorded_by. rewrite Hnil. by repeat constructor.
  - intros Hcb'.
    assert (Hkeep : forall cb, cache !! id = Some cb -> recorded_by now cb).
    { intros cb Hcb. eapply recorded_by_prefix; [exact Ht|done|by eapply Hinv]. }
    destruct (JS.truthy_string (upd_circuitBreakerId given)) as [id0|] eqn:Hid;
      [|revert Hcb'; unfold updateCircuitBreaker; rewrite Hid; apply Hkeep].
    destruct (JS.truthy_number (upd_httpResponseCode given)) as [code|] eqn:Hcode;
      [|revert Hcb'; unfold updateCircuitBreaker; rewrite Hid, Hcode; apply Hkeep].
    destruct (cache !! id0) as [cb|] eqn:Hcb;
      [|revert Hcb'; unfold updateCircuitBreaker; rewrite Hid, Hcode, Hcb;
        apply Hkeep].
    destruct (updateCircuitBreaker_stored now errorId given id0 code cb cache
                Hid Hcode Hcb)
      as (isError & cb1 & how & cb2 & _ & Heq & _ & _ & _ & Hfields).
    rewrite Heq in Hcb'. cbn [fst] in Hcb'.
    destruct (decide (id0 = id)) as [->|Hne];
      [|rewrite lookup_insert_ne in Hcb' by done; by apply Hkeep].
    rewrite lookup_insert_eq in Hcb'. simplify_eq.
    destruct (Hinv id cb Hcb) as [Hasc Hall].
    destruct isError.
    + destruct Hfields as (Herr & _). unfold recorded_by. rewrite Herr.
      split.
      * apply ascending_snoc; [done|].
        eapply Forall_impl; [exact Hall|]. intros; cbn in *; lia.
      * apply Forall_app. split; [|repeat constructor; cbn; lia].
        eapply Forall_impl; [exact Hall|]. intros; cbn in *; lia.
    + destruct Hfields as (_ & Herr & _).
      eapply (recorded_by_prefix t); [exact Ht|by rewrite Herr|done].
Qed.

Lemma run_recorded_by calls :
  forall t cache,
    chronological t calls ->
    (forall id cb, cache !! id = Some cb -> recorded_by t cb) ->
    forall id cb, run calls cache !! id = Some cb -> exists t', recorded_by t' cb.
Proof.
  induction calls as [|c calls IH]; intros t cache Hchron Hinv id cb Hcb.
  - exists t. by eapply Hinv.
  - destruct Hchron as [Ht Hrest].
    eapply (IH (call_time c)); [exact Hrest| |exact Hcb].
    by apply invoke_recorded_by with (t := t).
Qed.

(** X11.  In a run whose clock readings never decrease, every breaker's
    error list is in chronological order: the stamps never decrease along
    the list. *)
Theorem chronological_runs_keep_errors_ordered t calls id cb :
  chronological t calls ->
  run calls ∅ !! id = Some cb ->
  ascending (errors cb).
Proof.
  intros Hchron Hcb.
  destruct (run_recorded_by calls t ∅ Hchron) with (id := id) (cb := cb)
    as [t' [Hasc _]]; [intros ? ?; by rewrite lookup_empty|done|done].
Qed.

Lemma chronological_runs_keep_errors_ordered_witness :
  ascending
    (errors (default (newCircuitBreaker "backend" demoParams)
                     (demoCache !! "backend"%string))).
Proof.
  apply (chronological_runs_keep_errors_ordered 0 demoCalls "backend"%string).
  - cbn. repeat split; lia.
  - vm_compute; reflexivity.
Defined.

(** X12.  On an error list in chronological order, the check of an open
    breaker whose recovery period has not elapsed removes either nothing or
    everything: if the oldest error is still inside the window the list is
    kept whole, and if the oldest error has expired the list is emptied,
    errors inside the window included. *)
Theorem open_check_keeps_all_or_nothing now given id cb cache :
  JS.truthy_string (given_circuitBreakerId given) = Some id ->
  cache !! id = Some cb ->
  status cb = open ->
  opened_before cb (now - recoverPeriod (params cb) * 1000) = false ->
  ascending (errors cb) ->
  exists cb',
    (configCheckCircuitBreaker now given cache).1 !! id = Some cb' /\
    match errors cb with
    | [] => errors cb' = []
    | oldest :: _ =>
        (now - timeRange (params cb) * 1000 <= timestamp oldest ->
         errors cb' = errors cb) /\
        (timestamp oldest < now - timeRange (params cb) * 1000 ->
         errors cb' = [])
    end.
Proof.
  intros Hid Hcb Hst Hwait Hasc.
  destruct (configCheckCircuitBreaker_cases now given id cache Hid)
    as (cb' & completion & -> & Hcases).
  rewrite Hcb in Hcases. cbn [default from_option Datatypes.id] in Hcases.
  exists cb'. cbn [fst]. rewrite lookup_insert_eq. split; [done|].
  assert (Herr : errors cb' = window_prefix now cb (errors cb)).
  { destruct Hcases as [(? & _)|[(? & _)|[(? & _)|[(_ & ? & _)|[H|H]]]]];
      try congruence.
    - by destruct H as (_ & _ & _ & _ & ->).
    - by destruct H as (_ & _ & _ & _ & ->). }
  rewrite Herr, (window_prefix_ascending now cb _ Hasc).
  destruct (errors cb) as [|oldest rest]; [done|].
  unfold in_window.
  destruct (Z.leb_spec (now - timeRange (params cb) * 1000) (timestamp oldest));
    split; intros; (done || lia).
Qed.

Lemma open_check_keeps_all_or_nothing_witness :
  let cb := default (newCircuitBreaker "backend" demoParams)
                    (demoCache !! "backend"%string) in
  exists cb',
    (configCheckCircuitBreaker 400010 demoParams demoCache).1 !! "backend"%string
    = Some cb' /\
    match errors cb with
    | [] => errors cb' = []
    | oldest :: _ =>
        (400010 - timeRange (params cb) * 1000 <= timestamp oldest ->
         errors cb' = errors cb) /\
        (timestamp oldest < 400010 - timeRange (params cb) * 1000 ->
         errors cb' = [])
    end.
Proof.
  intros cb.
  apply (open_check_keeps_all_or_nothing 400010 demoParams "backend"%string
           cb demoCache).
  - reflexivity.
  - vm_compute; reflexivity.
  - reflexivity.
  - reflexivity.
  - cbn. repeat split; repeat constructor; cbn; lia.
Defined.

(** ** The classifier at the edges *)

Lemma default_spec_text : spec_text [Range 300 999] "[300-999]".
Proof.
  assert (H3 : numeral "300" 300).
  { apply (numeral_snoc "30" 30 "0" 0%nat); [|done].
    apply (numeral_snoc "3" 3 "0" 0%nat); [|done].
    by apply (numeral_digit "3" 3%nat). }
  assert (H9 : numeral "999" 999).
  { apply (numeral_snoc "99" 99 "9" 9%nat); [|done].
    apply (numeral_snoc "9" 9 "9" 9%nat); [|done].
    by apply (numeral_digit "9" 9%nat). }
  apply spec_last.
  apply (text_range "" "[" "" "300" 300 "" "" "999" 999 "" "]" "");
    by repeat constructor.
Qed.

(** X13.  A breaker created without [returnCodes] counts exactly the codes
    from 300 to 999 as failures: the first update after its creation, with
    any code other than [0], records one error if [300 <= code <= 999] and
    one success otherwise. *)
Theorem default_specification_is_300_to_999 now given cache id later errorId code :
  JS.truthy_string (given_circuitBreakerId given) = Some id ->
  cache !! id = None ->
  given_returnCodes given = None ->
  code <> 0 ->
  exists value,
    updateCircuitBreaker later errorId (response id code)
      (configCheckCircuitBreaker now given cache).1
    = (<[id := value]> (configCheckCircuitBreaker now given cache).1,
       Returned out_next value) /\
    if (300 <=? code) && (code <=? 999)
    then errors value = [errorEvent later errorId code] /\ successCount value = 0
    else errors value = [] /\ successCount value = 1.
Proof.
  intros Hid Hnone Hspec Hcode.
  assert (Hne : id <> EmptyString) by (by apply truthy_string_Some in Hid as [_ ?]).
  assert (Hcheck : (configCheckCircuitBreaker now given cache).1
                   = <[id := newCircuitBreaker id given]> cache).
  { unfold configCheckCircuitBreaker. by rewrite Hid, Hnone. }
  rewrite Hcheck.
  destruct (updateCircuitBreaker_stored later errorId (response id code) id code
              (newCircuitBreaker id given)
              (<[id := newCircuitBreaker id given]> cache))
    as (isError & cb1 & how & value & Hclass & Heq & _ & _ & _ & Hfields);
    [by apply truthy_string_Some|by apply truthy_number_Some
    |apply lookup_insert_eq|].
  exists value. split; [done|].
  assert (isError = (300 <=? code) && (code <=? 999)) as ->.
  { revert Hclass. unfold _isReturnCodeAnError. cbn [errorCodeMap newCircuitBreaker].
    rewrite lookup_empty. intros [= <- _ _].
    cbn [params newCircuitBreaker returnCodes _setDefaultParams].
    rewrite Hspec. cbn [default from_option Datatypes.id].
    rewrite (parseReturnCodes_spec_text [Range 300 999]) by apply default_spec_text.
    cbn. by rewrite orb_false_r. }
  destruct ((300 <=? code) && (code <=? 999)).
  - by destruct Hfields as (-> & -> & _).
  - by destruct Hfields as (-> & -> & _).
Qed.

Lemma default_specification_is_300_to_999_witness :
  exists value,
    updateCircuitBreaker 20 "e" (response "backend" 404)
      (configCheckCircuitBreaker 10 demoParams ∅).1
    = (<["backend"%string := value]> (configCheckCircuitBreaker 10 demoParams ∅).1,
       Returned out_next value) /\
    if (300 <=? 404) && (404 <=? 999)
    then errors value = [errorEvent 20 "e" 404] /\ successCount value = 0
    else errors value = [] /\ successCount value = 1.
Proof.
  apply (default_specification_is_300_to_999 10 demoParams ∅ "backend"%string
           20 "e"%string 404).
  - reflexivity.
  - reflexivity.
  - reflexivity.
  - lia.
Defined.

(** X14.  A field that starts with a hyphen, such as ["-5"], is not read as
    a negative code: containing a hyphen it is taken for a range, whose
    lower bound is the empty string and so [0].  It matches the codes from
    [0] to the number after the hyphen (a number of at most [2^53], so that
    it is held exactly). *)
Theorem leading_hyphen_is_a_range_from_zero code w1 s n w2 rest :
  blank w1 ->
  numeral s n ->
  exact_number n ->
  blank w2 ->
  matchFields code ((w1 +:+ "-" +:+ s +:+ w2) :: rest)
  = (0 <=? code) && (code <=? n) || matchFields code rest.
Proof.
  intros Hw1 Hs _ Hw2. cbn [matchFields].
  assert (Htrim : JSString.trim (w1 +:+ "-" +:+ s +:+ w2) = "-" +:+ s).
  { unfold JSString.trim. rewrite trimStart_blank_app by done.
    rewrite sapp_cons, sapp_nil_l. cbn [JSString.trimStart].
    change (Ascii.is_space "-") with false. cbv iota.
    change (String "-" (s +:+ w2)) with ("-" +:+ s +:+ w2).
    apply trimEnd_app_solid. rewrite trimEnd_app_blank by done.
    by apply (trimEnd_numeral s n). }
  rewrite Htrim.
  rewrite (includes_app _ "-").
  change (JSString.includes "-" "-") with true. rewrite orb_true_l.
  rewrite removeBrackets_app, (removeBrackets_plain s)
    by (by eapply numeral_plain).
  change (JSString.removeBrackets "-") with "-"%string.
  rewrite sapp_cons, sapp_nil_l. cbn [JSString.split].
  change (Ascii.eqb "-" "-") with true. cbv iota.
  rewrite split_no_separator
    by (apply plain_no_hyphen; by eapply numeral_plain).
  rewrite (trim_numeral s n) by done.
  unfold JSString.ge, JSString.le.
  rewrite (ToNumber_numeral s n) by done.
  change (JSString.ToNumber (JSString.trim "")) with (Some 0).
  by destruct (_ && _).
Qed.

Lemma leading_hyphen_is_a_range_from_zero_witness :
  matchFields 3 [("" +:+ "-" +:+ "5" +:+ "")%string]
  = (0 <=? 3) && (3 <=? 5) || matchFields 3 [].
Proof.
  apply (leading_hyphen_is_a_range_from_zero 3 "" "5" 5 "" []).
  - constructor.
  - by apply (numeral_digit "5" 5%nat).
  - by vm_compute.
  - constructor.
Defined.

(** ** What an update never does *)

(** X15.  Whatever update is invoked, for every stored breaker it leaves
    [params] and [output] as they are, removes no error (it appends one,
    stamped with the time of the update, or none), never lowers
    [successCount] (it adds one or nothing), keeps every
    remembered classification, and leaves [openedTimestamp] alone or sets it
    to the time of the update. *)
Theorem update_only_adds now errorId given cache id cb :
  cache !! id = Some cb ->
  exists cb',
    (updateCircuitBreaker now errorId given cache).1 !! id = Some cb' /\
    params cb' = params cb /\
    output cb' = output cb /\
    (errors cb' = errors cb \/
     exists event,
       errors cb' = errors cb ++ [event] /\
       timestamp event = now /\ error event = errorId) /\
    (successCount cb' = successCount cb \/
     successCount cb' = successCount cb + 1) /\
    (forall code cached,
        errorCodeMap cb !! code = Some cached ->
        errorCodeMap cb' !! code = Some cached) /\
    (openedTimestamp cb' = openedTimestamp cb \/ openedTimestamp cb' = Some now).
Proof.
  intros Hcb.
  assert (Hsame : exists cb',
            Some cb = Some cb' /\ params cb' = params cb /\
            output cb' = output cb /\
            (errors cb' = errors cb \/
             exists event,
               errors cb' = errors cb ++ [event] /\
               timestamp event = now /\ error event = errorId) /\
            (successCount cb' = successCount cb \/
             successCount cb' = successCount cb + 1) /\
            (forall code cached,
                errorCodeMap cb !! code = Some cached ->
                errorCodeMap cb' !! code = Some cached) /\
            (openedTimestamp cb' = openedTimestamp cb \/
             openedTimestamp cb' = Some now)).
  { exists cb. repeat split; auto. }
  destruct (JS.truthy_string (upd_circuitBreakerId given)) as [id0|] eqn:Hid;
    [|unfold updateCircuitBreaker; rewrite Hid; cbn [fst]; by rewrite Hcb].
  destruct (JS.truthy_number (upd_httpResponseCode given)) as [code|] eqn:Hcode;
    [|unfold updateCircuitBreaker; rewrite Hid, Hcode; cbn [fst]; by rewrite Hcb].
  destruct (cache !! id0) as [cb0|] eqn:Hcb0;
    [|unfold updateCircuitBreaker; rewrite Hid, Hcode, Hcb0; cbn; by rewrite Hcb].
  destruct (updateCircuitBreaker_stored now errorId given id0 code cb0 cache
              Hid Hcode Hcb0)
    as (isError & cb1 & how & cb' & Hclass & -> & Hmap & Hpar & Hout & Hfields).
  cbn [fst].
  destruct (decide (id0 = id)) as [->|Hne];
    [|rewrite lookup_insert_ne by done; by rewrite Hcb].
  rewrite lookup_insert_eq. simplify_eq. exists cb'.
  split; [done|]. split; [done|]. split; [done|].
  assert (Hkept : forall code' cached,
             errorCodeMap cb !! code' = Some cached ->
             errorCodeMap cb' !! code' = Some cached).
  { intros code' cached Hlook. rewrite Hmap.
    destruct (decide (code = code')) as [->|Hne];
      [|by rewrite lookup_insert_ne].
    rewrite lookup_insert_eq.
    destruct (_isReturnCodeAnError_defined cb code')
      as (isError' & cb1' & how' & Hclass' & _ & _ & _ & _ & _ & _ & _ & Hcase).
    rewrite Hclass in Hclass'. simplify_eq.
    destruct Hcase as [(? & _)|(? & _)]; congruence. }
  destruct isError.
  - destruct Hfields as (Herr & Hsc & Hyes & Hno).
    split; [right; exists (errorEvent now errorId code); by rewrite Herr|].
    split; [by left|]. split; [done|].
    assert (Hdec : must_open cb \/ ~ must_open cb).
    { unfold must_open.
      destruct (decide (status cb = halfopen)); [by left; left|].
      destruct (Z_le_gt_dec (maxErrorCount (params cb))
                            (Z.of_nat (length (errors cb)) + 1));
        [by left; right|]. right. intros [?|?]; [done|lia]. }
    destruct Hdec as [Hm|Hm].
    + right. by apply Hyes.
    + left. by apply Hno.
  - destruct Hfields as (Hsc & Herr & _ & Hts).
    split; [by left|]. split; [by right|]. split; [done|]. by left.
Qed.

Lemma update_only_adds_witness :
  let cb := default (newCircuitBreaker "backend" demoParams)
                    (demoCache !! "backend"%string) in
  exists cb',
    (updateCircuitBreaker 400003 "e5" demoFailure demoCache).1 !! "backend"%string
    = Some cb' /\
    params cb' = params cb /\
    output cb' = output cb /\
    (errors cb' = errors cb \/
     exists event,
       errors cb' = errors cb ++ [event] /\
       timestamp event = 400003 /\ error event = "e5"%string) /\
    (successCount cb' = successCount cb \/
     successCount cb' = successCount cb + 1) /\
    (forall code cached,
        errorCodeMap cb !! code = Some cached ->
        errorCodeMap cb' !! code = Some cached) /\
    (openedTimestamp cb' = openedTimestamp cb \/
     openedTimestamp cb' = Some 400003).
Proof.
  intros cb.
  apply (update_only_adds 400003 "e5"%string demoFailure demoCache
           "backend"%string cb).
  vm_compute; reflexivity.
Defined.

(** ** The classification cache *)

(** X16.  In every cache the plugin can be in, a remembered classification
    is the answer that parsing the breaker's own [returnCodes] gives for that
    code, whatever the text of the specification; and no invocation removes
    or changes a remembered classification or the specification. *)
Theorem remembered_classifications_are_right cache id cb code cached :
  reachable cache ->
  cache !! id = Some cb ->
  errorCodeMap cb !! code = Some cached ->
  cached = parseReturnCodes (returnCodes (params cb)) code /\
  forall c,
  exists cb',
    (invoke c cache).1 !! id = Some cb' /\
    errorCodeMap cb' !! code = Some cached /\
    returnCodes (params cb') = returnCodes (params cb).
Proof.
  intros Hreach Hcb Hcached. split.
  - by apply (reachable_cache_sound cache id cb Hreach Hcb).
  - intros c.
    destruct (invoke_keeps_classification c cache id cb code cached Hcb Hcached)
      as (cb' & ? & ? & Hpar).
    exists cb'. by rewrite Hpar.
Qed.

Lemma remembered_classifications_are_right_witness :
  let cb := default (newCircuitBreaker "combined" combinedParams)
                    (combinedCache !! "combined"%string) in
  true = parseReturnCodes (returnCodes (params cb)) 307 /\
  forall c,
  exists cb',
    (invoke c combinedCache).1 !! "combined"%string = Some cb' /\
    errorCodeMap cb' !! 307 = Some true /\
    returnCodes (params cb') = returnCodes (params cb).
Proof.
  intros cb.
  apply (remembered_classifications_are_right combinedCache "combined"%string
           cb 307 true).
  - by exists combinedCalls.
  - vm_compute; reflexivity.
  - vm_compute; reflexivity.
Defined.

(** ** Checking twice *)

Lemma window_prefix_idempotent now cb l :
  window_prefix now cb (window_prefix now cb l) = window_prefix now cb l.
Proof.
  apply window_prefix_all. apply Forall_forall.
  intros e He. by eapply window_prefix_all_inside.
Qed.

(** X17.  A check that has returned, repeated with the same clock reading
    (and any parameters carrying the same identifier), returns the same route
    and value and leaves the store as the first check left it. *)
Theorem check_twice_is_check_once now given given' cache route value :
  given_circuitBreakerId given' = given_circuitBreakerId given ->
  (configCheckCircuitBreaker now given cache).2 = Returned route value ->
  configCheckCircuitBreaker now given' (configCheckCircuitBreaker now given cache).1
  = ((configCheckCircuitBreaker now given cache).1, Returned route value).
Proof.
  intros Hsame.
  destruct (JS.truthy_string (given_circuitBreakerId given)) as [id|] eqn:Hid;
    [|unfold configCheckCircuitBreaker at 1; by rewrite Hid].
  destruct (configCheckCircuitBreaker_cases now given id cache Hid)
    as (cb' & completion & -> & Hcases).
  cbn [fst snd]. intros Hret.
  destruct completion as [|e]; [|done]. simplify_eq.
  set (cb := default (newCircuitBreaker id given) (cache !! id)) in *.
  clearbody cb.
  unfold configCheckCircuitBreaker. rewrite Hsame, Hid, lookup_insert_eq.
  destruct Hcases
    as [(Hs & _ & ->)|[(Hs & _ & _ & ->)|[(Hs & Hlt & _ & ->)
       |[(Hs & Hrec & Hcompl & ->)|[(Hs & Hwait & Hlen & _ & ->)
       |(Hs & Hwait & Hlen & _ & ->)]]]]].
  - cbn [status set_output]. rewrite Hs. cbn. by rewrite insert_insert_eq.
  - cbn. by rewrite insert_insert_eq.
  - cbn [status set_output]. rewrite Hs, _handleHalfopenStatus_logged.
    cbn [params successCount set_output].
    destruct (Z.leb_spec (halfOpenSuccesses (params cb)) (successCount cb)); [lia|].
    cbn. by rewrite insert_insert_eq.
  - cbn [status set_output enter_halfopen set_successCount set_status].
    rewrite _handleHalfopenStatus_logged. cbn.
    destruct (Z.leb_spec (halfOpenSuccesses (params cb)) 0); [done|].
    cbn. by rewrite insert_insert_eq.
  - cbn. by rewrite insert_insert_eq.
  - cbn [status set_errors set_output]. rewrite Hs.
    rewrite _handleOpenStatus_waiting by exact Hwait.
    cbn [errors params set_errors set_output].
    rewrite (window_prefix_params now
               (set_errors (window_prefix now cb (errors cb)) (set_output out_open cb))
               cb) by done.
    rewrite window_prefix_idempotent.
    destruct (Z.ltb_spec (Z.of_nat (length (window_prefix now cb (errors cb))))
                         (maxErrorCount (params cb))); [lia|].
    cbn. by rewrite insert_insert_eq.
Qed.

Lemma check_twice_is_check_once_witness :
  exists route value,
    configCheckCircuitBreaker 400004 demoParams
      (configCheckCircuitBreaker 400004 demoParams demoCache).1
    = ((configCheckCircuitBreaker 400004 demoParams demoCache).1,
       Returned route value).
Proof.
  eexists _, _.
  apply (check_twice_is_check_once 400004 demoParams demoParams demoCache).
  - reflexivity.
  - vm_compute. reflexivity.
Defined.


